(** * Meta Mega Codex runtime: configuration resolution, payload gate,
      advisory generation, redaction and digest aggregation.

    A shallow embedding of [codex_relay.py], [codex_executor.py],
    [codex_utils.py] and [codex_digest_report.py].  Python objects decoded
    from YAML or JSON are values of the inductive [value]; a [dict] keeps
    its items in insertion order, as Python's does.  A Python [str] is
    represented by its UTF-8 encoding, so [String.length] is the length of
    [s.encode("utf-8")].  Exceptions are results in the sum type [result]. *)

From Stdlib Require Import ZArith Floats.PrimFloat.
From stdpp Require Import base option list strings pretty sorting gmap.

Set Warnings "-register-all".

Local Open Scope string_scope.
Local Open Scope list_scope.
Local Open Scope nat_scope.

(** ** Python values *)

Inductive value : Type :=
  | VNone
  | VBool (b : bool)
  | VInt (z : Z)
  | VFloat (f : float)
  | VStr (s : string)
  | VList (items : list value)
  | VDict (items : list (string * value)).

Abbreviation dict := (list (string * value)).

(** Induction over [value] that reaches into lists and dict items. *)
Section value_induction.
Variable P : value → Prop.
Hypothesis HNone : P VNone.
Hypothesis HBool : ∀ b, P (VBool b).
Hypothesis HInt : ∀ z, P (VInt z).
Hypothesis HFloat : ∀ f, P (VFloat f).
Hypothesis HStr : ∀ s, P (VStr s).
Hypothesis HList : ∀ l, Forall P l → P (VList l).
Hypothesis HDict : ∀ d : dict, Forall (λ kv, P kv.2) d → P (VDict d).

Fixpoint value_rect_nested (v : value) : P v :=
  match v with
  | VNone => HNone
  | VBool b => HBool b
  | VInt z => HInt z
  | VFloat f => HFloat f
  | VStr s => HStr s
  | VList l =>
      HList l ((fix go (l : list value) : Forall P l :=
                  match l with
                  | [] => Forall_nil_2 P
                  | x :: l' => Forall_cons_2 P x l' (value_rect_nested x) (go l')
                  end) l)
  | VDict d =>
      HDict d ((fix go (d : dict) : Forall (λ kv, P kv.2) d :=
                  match d with
                  | [] => Forall_nil_2 _
                  | (k, x) :: d' =>
                      Forall_cons_2 (λ kv, P kv.2) (k, x) d'
                        (value_rect_nested x) (go d')
                  end) d)
  end.
End value_induction.

(** [bool(v)]: Python truthiness. *)
Definition truthy (v : value) : bool :=
  match v with
  | VNone => false
  | VBool b => b
  | VInt z => negb (z =? 0)%Z
  | VFloat f => negb (PrimFloat.eqb f 0%float)
  | VStr s => negb (String.eqb s "")
  | VList l => match l with [] => false | _ => true end
  | VDict d => match d with [] => false | _ => true end
  end.

(** [a or b] *)
Definition py_or (a b : value) : value := if truthy a then a else b.

(** ** Dictionaries in insertion order *)

(** [d.get(key)]; [None] here is an absent key. *)
Fixpoint dict_get (d : dict) (key : string) : option value :=
  match d with
  | [] => None
  | (k, v) :: d' => if decide (k = key) then Some v else dict_get d' key
  end.

(** [d[key] = v]: an existing key keeps its position, a new one goes last. *)
Fixpoint dict_set (d : dict) (key : string) (v : value) : dict :=
  match d with
  | [] => [(key, v)]
  | (k, x) :: d' =>
      if decide (k = key) then (k, v) :: d' else (k, x) :: dict_set d' key v
  end.

(** [d.get(key)] as a Python value: an absent key reads as [None]. *)
Definition py_get (d : dict) (key : string) : value :=
  default VNone (dict_get d key).

(** [d.get(key, dflt)] *)
Definition py_get_default (d : dict) (key : string) (dflt : value) : value :=
  default dflt (dict_get d key).

Definition keys (d : dict) : list string := d.*1.

(** ** Exceptions and results *)

Inductive exn_class : Type :=
  | ValueError | TypeError | AttributeError | LookupError
  | FileNotFoundError | IsADirectoryError | NotADirectoryError
  | YAMLError | JSONDecodeError.

(** The exceptions that matter below carry their arguments; [PyError] is
    any other one, by class and message: most are raised by the interpreter
    or by a library. *)
Inductive exn : Type :=
  | CircularInclude (chain : list string)
  | PayloadLimit (max_bytes : Z)
  | PayloadNotObject
  | StackFileMissing (target : string)
  | NoStackFound (persona role : string)
  | YamlMissing (path : string)
  | YamlNotMapping (path : string)
  | PyError (cls : exn_class) (what : string).

Definition exn_class_of (e : exn) : exn_class :=
  match e with
  | CircularInclude _ | PayloadLimit _ => ValueError
  | PayloadNotObject | YamlNotMapping _ => TypeError
  | StackFileMissing _ | YamlMissing _ => FileNotFoundError
  | NoStackFound _ _ => LookupError
  | PyError cls _ => cls
  end.

(** [' -> '.join(...)], and [sep.join] in general. *)
Fixpoint str_join (sep : string) (parts : list string) : string :=
  match parts with
  | [] => ""
  | [p] => p
  | p :: rest => p +:+ sep +:+ str_join sep rest
  end.

Definition exn_message (e : exn) : string :=
  match e with
  | CircularInclude chain =>
      "Circular include detected: " +:+ str_join " -> " chain
  | PayloadLimit max_bytes =>
      "Payload exceeds relay policy limit of " +:+ pretty max_bytes +:+ " bytes."
  | PayloadNotObject => "Payload must be a JSON object."
  | StackFileMissing target => "Stack file " +:+ target +:+ " does not exist."
  | NoStackFound persona role =>
      "No stack found for persona=" +:+ persona +:+ " role=" +:+ role +:+ "."
  | YamlMissing path => "YAML file " +:+ path +:+ " does not exist."
  | YamlNotMapping path =>
      "YAML file " +:+ path +:+ " must contain a mapping at the top level."
  | PyError _ what => what
  end.

(** A call returns, raises, or (for the one recursive function, on too
    little fuel) is cut short. *)
Inductive result (A : Type) : Type :=
  | Ok (a : A)
  | Raise (e : exn)
  | OutOfFuel.
Arguments Ok {A} a.
Arguments Raise {A} e.
Arguments OutOfFuel {A}.

Global Instance result_ret : MRet result := λ A a, Ok a.
Global Instance result_bind : MBind result := λ A B f m,
  match m with
  | Ok a => f a
  | Raise e => Raise e
  | OutOfFuel => OutOfFuel
  end.

(** A [for] loop that threads an accumulator and stops at the first raise. *)
Fixpoint foldM {A B : Type} (f : B → A → result B) (acc : B) (l : list A) : result B :=
  match l with
  | [] => Ok acc
  | x :: l' => acc' ← f acc x; foldM f acc' l'
  end.

(** A [for] loop that builds a list, one call per element. *)
Fixpoint mapM {A B : Type} (f : A → result B) (l : list A) : result (list B) :=
  match l with
  | [] => Ok []
  | x :: l' => y ← f x; ys ← mapM f l'; Ok (y :: ys)
  end.

(** ** Builtins on values *)

Definition is_continuation (a : Ascii.ascii) : bool :=
  let n := Ascii.N_of_ascii a in ((128 <=? n) && (n <? 192))%N.

(** The characters of a [str]: each lead byte with the continuation bytes
    that follow it. *)
Fixpoint utf8_chars (s : string) : list string :=
  match s with
  | EmptyString => []
  | String a s' =>
      match s' with
      | String b _ =>
          if is_continuation b
          then match utf8_chars s' with
               | c :: rest => String a c :: rest
               | [] => [String a EmptyString]
               end
          else String a EmptyString :: utf8_chars s'
      | EmptyString => [String a EmptyString]
      end
  end.

Definition type_name (v : value) : string :=
  match v with
  | VNone => "NoneType"
  | VBool _ => "bool"
  | VInt _ => "int"
  | VFloat _ => "float"
  | VStr _ => "str"
  | VList _ => "list"
  | VDict _ => "dict"
  end.

(** [for x in v]: the elements a loop over [v] visits. *)
Definition py_iter (v : value) : result (list value) :=
  match v with
  | VList l => Ok l
  | VStr s => Ok (VStr <$> utf8_chars s)
  | VDict d => Ok (VStr <$> keys d)
  | _ => Raise (PyError TypeError ("'" +:+ type_name v +:+ "' object is not iterable"))
  end.

(** [len(v)] *)
Definition py_len (v : value) : result nat :=
  match v with
  | VList l => Ok (length l)
  | VStr s => Ok (length (utf8_chars s))
  | VDict d => Ok (length d)
  | _ => Raise (PyError TypeError ("object of type '" +:+ type_name v +:+ "' has no len()"))
  end.

(** [v.get(key)] on a value that need not be a dict. *)
Definition py_attr_get (v : value) (key : string) : result value :=
  match v with
  | VDict d => Ok (py_get d key)
  | _ => Raise (PyError AttributeError
                  ("'" +:+ type_name v +:+ "' object has no attribute 'get'"))
  end.

(** [v.get(key, dflt)] on a value that need not be a dict. *)
Definition py_attr_get_default (v : value) (key : string) (dflt : value)
    : result value :=
  match v with
  | VDict d => Ok (py_get_default d key dflt)
  | _ => Raise (PyError AttributeError
                  ("'" +:+ type_name v +:+ "' object has no attribute 'get'"))
  end.

(** [v == s] for a [str] [s]. *)
Definition py_eq_str (v : value) (s : string) : bool :=
  match v with
  | VStr s' => bool_decide (s' = s)
  | _ => false
  end.

(** [isinstance(v, dict)] *)
Definition is_dict (v : value) : bool :=
  match v with VDict _ => true | _ => false end.

(** ** Files *)

(** A YAML file on disk: what [yaml.safe_load] makes of it. *)
Inductive yaml_file : Type :=
  | YamlDoc (content : value)
  | YamlSyntaxError.

(** A JSON file on disk: what [json.load] makes of it. *)
Inductive json_file : Type :=
  | JsonDoc (content : value)
  | JsonSyntaxError.

(** ** codex_utils.py *)

Module Utils.

Definition load_yaml (files : gmap string yaml_file) (path : string)
    (required : bool) : result value :=
  match files !! path with
  | None => if required then Raise (YamlMissing path) else Ok (VDict [])
  | Some YamlSyntaxError => Raise (PyError YAMLError path)
  | Some (YamlDoc content) =>
      let data := py_or content (VDict []) in
      if is_dict data then Ok data else Raise (YamlNotMapping path)
  end.

Definition REDACTED : value := VStr "***REDACTED***".

(** [keys_to_redact] is the list of sensitive keys, each a [str], which
    [str(key)] leaves as it is. *)
Fixpoint redact (obj : value) (keys_to_redact : list string) {struct obj} : value :=
  match obj with
  | VDict items =>
      VDict (fold_left
               (λ (redacted : dict) (kv : string * value),
                  let '(key, value) := kv in
                  if decide (key ∈ keys_to_redact)
                  then dict_set redacted key REDACTED
                  else dict_set redacted key (redact value keys_to_redact))
               items [])
  | VList items => VList (map (λ item, redact item keys_to_redact) items)
  | _ => obj
  end.

End Utils.

(** ** codex_relay.py *)

Module Relay.

(** The part of the operating system the relay sees: the YAML files by
    resolved path, [pathlib]'s operations on paths, and the names that
    [glob("*.yaml")] lists in a directory, in the order the system gives. *)
Record filesystem : Type := {
  files : gmap string yaml_file;
  BASE_DIR : string;
  parent : string → string;
  join : string → string → string;
  resolve : string → string;
  is_absolute : string → bool;
  path_exists : string → bool;
  glob_yaml : string → list string;
}.

Fixpoint deep_merge_value (base : dict) (incoming : value) {struct incoming} : dict :=
  match incoming with
  | VDict items =>
      fold_left
        (λ (result : dict) (kv : string * value),
           let '(key, value) := kv in
           match dict_get result key, value with
           | Some (VDict r), VDict _ =>
               dict_set result key (VDict (deep_merge_value r value))
           | _, _ => dict_set result key value
           end)
        items base
  | _ => base
  end.

Definition _deep_merge (base incoming : dict) : dict :=
  deep_merge_value base (VDict incoming).

(** [files] holds what can be opened; a path outside it stands for a
    path at which there is nothing.  Directories at the paths opened are
    not part of the model. *)
Definition _load_yaml (fs : filesystem) (path : string) : result value :=
  match files fs !! path with
  | None => Raise (PyError FileNotFoundError path)
  | Some YamlSyntaxError => Raise (PyError YAMLError path)
  | Some (YamlDoc content) => Ok (py_or content (VDict []))
  end.

(** [path.parent / include_name], resolved. *)
Definition include_path (fs : filesystem) (path : string) (include_name : value)
    : result string :=
  match include_name with
  | VStr name => Ok (resolve fs (join fs (parent fs path) name))
  | _ => Raise (PyError TypeError
                  ("unsupported operand type(s) for /: 'PosixPath' and '"
                   +:+ type_name include_name +:+ "'"))
  end.

(** [{k: v for k, v in data.items() if k != "include"}] *)
Definition body_of (data : dict) : dict :=
  fold_left
    (λ (body : dict) (kv : string * value),
       if decide (kv.1 ≠ "include") then dict_set body kv.1 kv.2 else body)
    data [].

(** [_load_stack_with_includes] with a bound on the depth of recursion. *)
Fixpoint load_stack_fuel (fs : filesystem) (fuel : nat) (path : string)
    (ancestry : list string) : result dict :=
  match fuel with
  | 0 => OutOfFuel
  | S fuel' =>
      if decide (path ∈ ancestry)
      then Raise (CircularInclude (ancestry ++ [path]))
      else
        data ← _load_yaml fs path;
        inc ← py_attr_get data "include";
        includes ← py_iter (py_or inc (VList []));
        merged ← foldM
          (λ (merged : dict) (include_name : value),
             target ← include_path fs path include_name;
             included ← load_stack_fuel fs fuel' target (ancestry ++ [path]);
             Ok (_deep_merge merged included))
          [] includes;
        match data with
        | VDict items => Ok (_deep_merge merged (body_of items))
        | _ => Raise (PyError AttributeError
                        ("'" +:+ type_name data +:+ "' object has no attribute 'items'"))
        end
  end.

(** No chain of includes is longer than the number of files, so this much
    fuel is never used up ([load_stack_total] below). [ancestry] is the
    list the caller passes, [[]] for [None]. *)
Definition _load_stack_with_includes (fs : filesystem) (path : string)
    (ancestry : list string) : result dict :=
  load_stack_fuel fs (S (size (files fs))) path ancestry.

(** [sorted(stacks_dir.glob("*.yaml"))]: the candidates lie in one
    directory, so their order as paths is the order of their names. *)
Definition sorted_names (names : list string) : list string :=
  merge_sort String.le names.

(** The loop of [_discover_stack] over the sorted candidates; each is a
    name in [stacks_dir]. *)
Fixpoint discover_loop (fs : filesystem) (persona role stacks_dir : string)
    (candidates : list string) : result (dict * string) :=
  match candidates with
  | [] => Raise (NoStackFound persona role)
  | candidate :: rest =>
      let path := resolve fs (join fs stacks_dir candidate) in
      stack ← _load_stack_with_includes fs path [];
      routing ← Ok (py_or (py_get stack "routing") (VDict []));
      p ← py_attr_get routing "persona";
      if py_eq_str p persona
      then r ← py_attr_get routing "role";
           if py_eq_str r role then Ok (stack, path)
           else discover_loop fs persona role stacks_dir rest
      else discover_loop fs persona role stacks_dir rest
  end.

Definition _discover_stack (fs : filesystem) (persona role stacks_dir : string)
    (explicit_stack : option string) : result (dict * string) :=
  match explicit_stack with
  | Some explicit =>
      let target :=
        if is_absolute fs explicit then explicit
        else let candidate := join fs (BASE_DIR fs) explicit in
             if path_exists fs candidate then candidate
             else join fs stacks_dir explicit in
      if negb (path_exists fs target) then Raise (StackFileMissing target)
      else stack ← _load_stack_with_includes fs (resolve fs target) [];
           Ok (stack, resolve fs target)
  | None =>
      discover_loop fs persona role stacks_dir
        (sorted_names (glob_yaml fs stacks_dir))
  end.

(** [_parse_payload], with the arguments of its calls to [json.loads] in
    the first component. [json_loads] is the JSON parser. *)
Definition _parse_payload (json_loads : string → result value)
    (payload_str : string) (max_bytes : option Z) : list string * result dict :=
  let encoded := payload_str in
  let over :=
    match max_bytes with
    | Some n => negb (n =? 0)%Z && bool_decide (n < Z.of_nat (String.length encoded))%Z
    | None => false
    end in
  if over then ([], Raise (PayloadLimit (default 0%Z max_bytes)))
  else
    let text := if String.eqb payload_str "" then "{}" else payload_str in
    ([text],
     parsed ← json_loads text;
     match parsed with
     | VDict d => Ok d
     | _ => Raise PayloadNotObject
     end).

(** *** The same resolver over a store of list objects

    [ancestry] is a reference to a list object.  [ancestry or []] and
    [ancestry + [path]] build new lists; nothing assigns to, appends to or
    removes from an existing one. *)

Abbreviation store := (list (list string)).

Definition alloc (σ : store) (l : list string) : nat * store :=
  (length σ, σ ++ [l]).

Definition deref (σ : store) (ref : option nat) : list string :=
  match ref with
  | Some a => default [] (σ !! a)
  | None => []
  end.

Fixpoint foldM_store {A B : Type} (f : B → A → store → result B * store)
    (acc : B) (l : list A) (σ : store) : result B * store :=
  match l with
  | [] => (Ok acc, σ)
  | x :: l' =>
      match f acc x σ with
      | (Ok acc', σ') => foldM_store f acc' l' σ'
      | (Raise e, σ') => (Raise e, σ')
      | (OutOfFuel, σ') => (OutOfFuel, σ')
      end
  end.

(** [ancestry = ancestry or []]: the list passed, or a new empty one
    for [None] and for an empty list. *)
Definition ancestry_or_new (ancestry : option nat) (σ : store) : nat * store :=
  match ancestry with
  | Some a => if bool_decide (deref σ (Some a) = []) then alloc σ [] else (a, σ)
  | None => alloc σ []
  end.

(** One turn of the loop over the includes; [call] is the recursive call. *)
Definition include_store (fs : filesystem)
    (call : string → option nat → store → result dict * store)
    (path : string) (anc : nat) (merged : dict) (include_name : value)
    (σ : store) : result dict * store :=
  match include_path fs path include_name with
  | Ok target =>
      (* ancestry + [path] *)
      let '(child, σ) := alloc σ (deref σ (Some anc) ++ [path]) in
      match call target (Some child) σ with
      | (Ok included, σ) => (Ok (_deep_merge merged included), σ)
      | (Raise e, σ) => (Raise e, σ)
      | (OutOfFuel, σ) => (OutOfFuel, σ)
      end
  | Raise e => (Raise e, σ)
  | OutOfFuel => (OutOfFuel, σ)
  end.

Fixpoint load_stack_store (fs : filesystem) (fuel : nat) (path : string)
    (ancestry : option nat) (σ : store) : result dict * store :=
  match fuel with
  | 0 => (OutOfFuel, σ)
  | S fuel' =>
      let '(anc, σ) := ancestry_or_new ancestry σ in
      if decide (path ∈ deref σ (Some anc))
      then
        let '(chain, σ) := alloc σ (deref σ (Some anc) ++ [path]) in
        (Raise (CircularInclude (deref σ (Some chain))), σ)
      else
        match
          data ← _load_yaml fs path;
          inc ← py_attr_get data "include";
          includes ← py_iter (py_or inc (VList []));
          Ok (data, includes)
        with
        | Ok (data, includes) =>
            match
              foldM_store (include_store fs (load_stack_store fs fuel') path anc)
                [] includes σ
            with
            | (Ok merged, σ) =>
                match data with
                | VDict items => (Ok (_deep_merge merged (body_of items)), σ)
                | _ => (Raise (PyError AttributeError
                                 ("'" +:+ type_name data
                                  +:+ "' object has no attribute 'items'")), σ)
                end
            | (Raise e, σ) => (Raise e, σ)
            | (OutOfFuel, σ) => (OutOfFuel, σ)
            end
        | Raise e => (Raise e, σ)
        | OutOfFuel => (OutOfFuel, σ)
        end
  end.

Definition _load_stack_with_includes_store (fs : filesystem) (path : string)
    (ancestry : option nat) (σ : store) : result dict * store :=
  load_stack_store fs (S (size (files fs))) path ancestry σ.

End Relay.

(** ** codex_executor.py *)

Module Executor.

Definition _coerce_mapping (value : value) : result dict :=
  match value with
  | VDict d => Ok d
  | VNone => Ok []
  | _ => Raise (PyError TypeError "Payload must decode to a JSON object.")
  end.

Record Advisory : Type := {
  summary : string;
  recommended_actions : list value;
  confidence : string;
  risk_level : value;
}.

(** [sep.join(parts)]: every part has to be a [str]; the first that is
    none is reported with its position, [index] being the position of the
    first part of [parts] in the sequence joined. *)
Fixpoint str_parts (index : nat) (parts : list value) : result (list string) :=
  match parts with
  | [] => Ok []
  | VStr s :: rest => ss ← str_parts (S index) rest; Ok (s :: ss)
  | v :: _ => Raise (PyError TypeError
                       ("sequence item " +:+ pretty index
                        +:+ ": expected str instance, "
                        +:+ type_name v +:+ " found"))
  end.

Section with_str.
(** The builtin [str()]. *)
Variable py_str : value → string.

Definition _coerce_list (value : value) : list string :=
  match value with
  | VNone => []
  | VList items => py_str <$> items
  | _ => [py_str value]
  end.

(** [policies] is [self.policies]. *)
Definition _generate_advisory (policies payload : dict) : result Advisory :=
  let summary_prefix :=
    py_get_default policies "summary_prefix" (VStr "Advisor Insight") in
  let objectives := _coerce_list (py_get payload "objectives") in
  let blockers := _coerce_list (py_get payload "blockers") in
  let context :=
    py_or (py_get payload "context") (VStr "No additional context supplied.") in
  let summary_parts :=
    [summary_prefix; context]
    ++ match objectives with
       | o :: _ => [VStr ("Core objective: " +:+ o)]
       | [] => []
       end in
  parts ← str_parts 0 summary_parts;
  let summary := str_join " — " parts in
  defaults ← py_iter (py_get_default policies "default_actions" (VList []));
  let recommended_actions :=
    defaults
    ++ match blockers with
       | b :: _ => [VStr ("Resolve blocker: " +:+ b)]
       | [] => []
       end
    ++ match objectives with
       | o :: _ => [VStr ("Advance objective: " +:+ o)]
       | [] => []
       end in
  let recommended_actions :=
    match recommended_actions with
    | [] => [VStr "Document a concrete next step."]
    | _ => recommended_actions
    end in
  let risk_level :=
    py_or (py_get payload "risk_level")
          (VStr (match blockers with [] => "low" | _ => "medium" end)) in
  let confidence := match blockers with [] => "high" | _ => "balanced" end in
  Ok {| summary := summary;
        recommended_actions := recommended_actions;
        confidence := confidence;
        risk_level := risk_level |}.

End with_str.

End Executor.

(** ** codex_digest_report.py *)

Module Digest.

(** The vault as a tree: a file with what [json.load] makes of it, or a
    directory with its entries in the order [iterdir] lists them. *)
Inductive node : Type :=
  | File (content : json_file)
  | Dir (entries : list (string * node)).

Fixpoint entry (entries : list (string * node)) (name : string) : option node :=
  match entries with
  | [] => None
  | (n, x) :: rest => if decide (n = name) then Some x else entry rest name
  end.

(** [dir / name], when it exists. *)
Definition child (dir : node) (name : string) : option node :=
  match dir with
  | Dir entries => entry entries name
  | File _ => None
  end.

(** The node at a path of names below [root]. *)
Fixpoint at_path (root : node) (path : list string) : option node :=
  match path with
  | [] => Some root
  | name :: rest =>
      match child root name with
      | Some n => at_path n rest
      | None => None
      end
  end.

Definition is_dir (n : node) : bool :=
  match n with Dir _ => true | File _ => false end.

(** [_load_json(path)], [path] taken below [root]. *)
Definition _load_json (root : node) (path : list string) : result value :=
  match at_path root path with
  | None => Ok (VDict [])
  | Some (Dir _) => Raise (PyError IsADirectoryError (str_join "/" path))
  | Some (File JsonSyntaxError) => Raise (PyError JSONDecodeError (str_join "/" path))
  | Some (File (JsonDoc content)) => Ok content
  end.

(** The order of [Path]s: that of their parts, name by name. *)
Fixpoint path_leb (p q : list string) : bool :=
  match p, q with
  | [], _ => true
  | _ :: _, [] => false
  | a :: p', b :: q' =>
      if decide (a = b) then path_leb p' q' else bool_decide (a ≤ b)%string
  end.

Definition path_le (p q : list string) : Prop := path_leb p q.
Definition path_ge (p q : list string) : Prop := path_le q p.

Global Instance path_ge_dec : RelDecision path_ge.
Proof. intros p q. unfold path_ge, path_le. apply _. Defined.

(** [sorted(run_dirs, reverse=True)] *)
Definition sorted_reverse (run_dirs : list (list string)) : list (list string) :=
  merge_sort path_ge run_dirs.

(** [l[:limit]] *)
Definition slice_to {A : Type} (l : list A) (limit : Z) : list A :=
  if decide (0 ≤ limit)%Z then take (Z.to_nat limit) l
  else take (length l - Z.to_nat (- limit)) l.

Record DigestRecord : Type := {
  run_dir : list string;
  timestamp : value;
  persona : value;
  role : value;
  pipeline : value;
  outputs : value;
  evaluation_schema : value;
  evaluation_criteria : nat;
  logger_present : bool;
}.

(** The first loop of [_collect_runs]: the run directories below
    [runs_root], as paths of names below it, in the order found. *)
Definition candidates (entries : list (string * node)) : list (list string) :=
  flat_map
    (λ (c : string * node),
       let '(name, candidate) := c in
       match candidate with
       | File _ => []
       | Dir sub =>
           match entry sub "relay.json" with
           | Some _ => [[name]]
           | None =>
               flat_map
                 (λ (n : string * node),
                    if is_dir n.2 then [[name; n.1]] else [])
                 sub
           end
       end)
    entries.

(** The body of the second loop, for one run directory. *)
Definition collect_one (runs_root : node) (run_path : list string)
    : result DigestRecord :=
  relay ← _load_json runs_root (run_path ++ ["relay.json"]);
  evaluation ← _load_json runs_root (run_path ++ ["evaluation.json"]);
  logger ← _load_json runs_root (run_path ++ ["logger.json"]);
  timestamp ← py_attr_get relay "timestamp";
  persona ← py_attr_get relay "persona";
  role ← py_attr_get relay "role";
  pipeline ← py_attr_get relay "pipeline";
  outputs ← py_attr_get_default relay "outputs" (VDict []);
  evaluation_schema ← py_attr_get evaluation "schema_version";
  criteria ← py_attr_get_default evaluation "criteria" (VList []);
  evaluation_criteria ← py_len criteria;
  Ok {| run_dir := run_path;
        timestamp := timestamp;
        persona := persona;
        role := role;
        pipeline := pipeline;
        outputs := outputs;
        evaluation_schema := evaluation_schema;
        evaluation_criteria := evaluation_criteria;
        logger_present := truthy logger |}.

(** The run directories [_collect_runs] goes on to read: sorted, cut. *)
Definition selected (entries : list (string * node)) (limit : option Z)
    : list (list string) :=
  let run_dirs := sorted_reverse (candidates entries) in
  match limit with
  | Some n => slice_to run_dirs n
  | None => run_dirs
  end.

(** [vault] is the directory [vault_dir]; a run directory is named by its
    path below [vault_dir / "runs"]. *)
Definition _collect_runs (vault : node) (limit : option Z)
    : result (list DigestRecord) :=
  match child vault "runs" with
  | None => Ok []
  | Some (File _) => Raise (PyError NotADirectoryError "runs")
  | Some (Dir entries) =>
      mapM (collect_one (Dir entries)) (selected entries limit)
  end.

End Digest.

(** ** codex_executor.py: the executor object *)

Module CodexExecutor.

(** [Advisory.as_dict] *)
Definition as_dict (advisory : Executor.Advisory) : dict :=
  [("summary", VStr (Executor.summary advisory));
   ("recommended_actions", VList (Executor.recommended_actions advisory));
   ("confidence", VStr (Executor.confidence advisory));
   ("risk_level", Executor.risk_level advisory)].

(** [v[0]]. [IndexError] and [KeyError] are given by their base class
    [LookupError]; a dict here has strings as keys, so not the key 0. *)
Definition py_first (v : value) : result value :=
  match v with
  | VList (x :: _) => Ok x
  | VList [] => Raise (PyError LookupError "IndexError: list index out of range")
  | VStr s =>
      match utf8_chars s with
      | c :: _ => Ok (VStr c)
      | [] => Raise (PyError LookupError "IndexError: string index out of range")
      end
  | VDict _ => Raise (PyError LookupError "KeyError: 0")
  | _ => Raise (PyError TypeError
                  ("'" +:+ type_name v +:+ "' object is not subscriptable"))
  end.

(** The attributes of a [CodexExecutor]. *)
Record executor : Type := {
  stack_config : value;
  policies : value;
  agent : value;
}.

Definition __init__ (stack_config policies : value) : result executor :=
  if negb (truthy stack_config)
  then Raise (PyError ValueError "Stack configuration cannot be empty.")
  else
    declared ← py_attr_get stack_config "agents";
    let agents := py_or declared (VList []) in
    if negb (truthy agents)
    then Raise (PyError ValueError "Stack must declare at least one agent.")
    else
      first ← py_first agents;
      Ok {| stack_config := stack_config;
            policies := py_or policies (VDict []);
            agent := first |}.

Section with_str.
(** The builtin [str()], and the reading of the clock as
    [datetime.now(timezone.utc).isoformat()] gives it. *)
Variable py_str : value → string.
Variable now : string.

Definition run (self : executor) (payload : value) : result dict :=
  normalized_payload ← Executor._coerce_mapping payload;
  advisory ←
    match policies self with
    | VDict p => Executor._generate_advisory py_str p normalized_payload
    | v => Raise (PyError AttributeError
                    ("'" +:+ type_name v +:+ "' object has no attribute 'get'"))
    end;
  agent_name ← py_attr_get (agent self) "name";
  model ← py_attr_get (agent self) "model";
  routing ← py_attr_get_default (stack_config self) "routing" (VDict []);
  cfms_invariants ←
    py_attr_get_default (stack_config self) "cfms_invariants" (VDict []);
  Ok [("meta", VDict [("agent_name", agent_name);
                      ("model", model);
                      ("generated_at", VStr now)]);
      ("routing", routing);
      ("cfms_invariants", cfms_invariants);
      ("payload", VDict normalized_payload);
      ("advice", VDict (as_dict advisory))].

End with_str.

End CodexExecutor.

(** ** codex_logger.py *)

Module Logger.

(** A file written into a directory: it takes the place of the entry of
    that name, or is a new entry. *)
Fixpoint entry_set (entries : list (string * Digest.node)) (name : string)
    (x : Digest.node) : list (string * Digest.node) :=
  match entries with
  | [] => [(name, x)]
  | (n, y) :: rest =>
      if decide (n = name) then (n, x) :: rest else (n, y) :: entry_set rest name x
  end.

(** [redact(obj, keys_to_redact)] with the keys as the policy gives them:
    any value, iterated, each key through [str()]. *)
Definition redact_with (py_str : value → string) (obj keys_to_redact : value)
    : result value :=
  names ← py_iter (py_or keys_to_redact (VList []));
  Ok (Utils.redact obj (py_str <$> names)).

Section with_environment.
(** The builtin [str()], the reading of the clock, and what
    [_collect_environment] returns. *)
Variable py_str : value → string.
Variable now : string.
Variable environment : dict.

(** [main] for the run directory [run], named [run_dir], with the policy
    file at [policy_path] among [files]: the run directory afterwards, and
    the record written to [logger.json]. *)
Definition main (files : gmap string yaml_file) (policy_path : string)
    (run_dir : string) (run : Digest.node) (record_env : bool)
    : result (Digest.node * dict) :=
  match Digest.child run "relay.json" with
  | None =>
      Raise (PyError FileNotFoundError
               ("Relay output " +:+ run_dir +:+ "/relay.json not found."))
  | Some (Digest.Dir _) => Raise (PyError IsADirectoryError "relay.json")
  | Some (Digest.File JsonSyntaxError) => Raise (PyError JSONDecodeError "relay.json")
  | Some (Digest.File (JsonDoc relay_data)) =>
      config ← Utils.load_yaml files policy_path false;
      policies ← py_attr_get_default config "logger" (VDict []);
      redact_keys ← py_attr_get_default policies "redact_keys" (VList []);
      payload ← py_attr_get_default relay_data "payload" (VDict []);
      sanitized_payload ← redact_with py_str payload redact_keys;
      persona ← py_attr_get relay_data "persona";
      role ← py_attr_get relay_data "role";
      pipeline ← py_attr_get relay_data "pipeline";
      outputs ← py_attr_get relay_data "outputs";
      let log_record :=
        [("timestamp", VStr now);
         ("run_dir", VStr run_dir);
         ("persona", persona);
         ("role", role);
         ("pipeline", pipeline);
         ("payload", sanitized_payload);
         ("outputs", outputs)] in
      let log_record :=
        if record_env then dict_set log_record "environment" (VDict environment)
        else log_record in
      match run with
      | Digest.Dir entries =>
          match Digest.entry entries "logger.json" with
          | Some (Digest.Dir _) => Raise (PyError IsADirectoryError "logger.json")
          | _ =>
              Ok (Digest.Dir
                    (entry_set entries "logger.json"
                       (Digest.File (JsonDoc (VDict log_record)))),
                  log_record)
          end
      | Digest.File _ => Raise (PyError NotADirectoryError run_dir)
      end
  end.

End with_environment.

End Logger.

(** ** The relay server: [orchestration/MCP/relay_server.py] *)

Module RelayServer.

(** What the endpoint gives back: the mapping it returns, or the
    [HTTPException] it raises. *)
Inductive response : Type :=
  | Return (content : dict)
  | HTTPException (status_code : Z) (detail : string).

(** A call [log_event(name, details)] to the custodian ledger. *)
Definition event : Type := string * dict.

(** [relay(request)].  [body] is what [await request.json()] gives, [None]
    when it raises.  The first component lists the calls to [log_event], in
    order; [log_event] is taken to return. *)
Definition relay (body : option value) : list event * response :=
  match body with
  | None =>
      ([("RELAY_INVALID", [("body_type", VStr "invalid_json")])],
       HTTPException 400 "Invalid JSON body")
  | Some (VDict body) =>
      let envelope := py_get body "envelope" in
      let tool := py_get body "tool" in
      if negb (truthy envelope) || negb (truthy tool) then
        ([("RELAY_INVALID",
           [("body_type", VStr "dict");
            ("keys", VList (VStr <$> take 50 (keys body)));
            ("has_envelope", VBool (truthy envelope));
            ("has_tool", VBool (truthy tool))])],
         HTTPException 400 "Invalid envelope")
      else
        ([("RELAY_RECEIVED", [("tool", tool); ("envelope", envelope)])],
         Return [("status", VStr "received"); ("tool", tool)])
  | Some other =>
      ([("RELAY_INVALID", [("body_type", VStr (type_name other))])],
       HTTPException 400 "Invalid envelope")
  end.

End RelayServer.

(** * Properties *)

(** ** Dictionaries *)

Section dict_facts.
Implicit Types (d : dict) (k : string) (v : value).

Lemma dict_get_set_eq d k v : dict_get (dict_set d k v) k = Some v.
Proof.
  induction d as [|[k' x] d IH]; simpl.
  - by rewrite decide_True.
  - destruct (decide (k' = k)) as [->|Hne]; simpl.
    + by rewrite decide_True.
    + by rewrite decide_False.
Qed.

Lemma dict_get_set_ne d k k' v :
  k ≠ k' → dict_get (dict_set d k v) k' = dict_get d k'.
Proof.
  intros Hne. induction d as [|[k0 x] d IH]; simpl.
  - by rewrite decide_False.
  - destruct (decide (k0 = k)) as [->|Hne0]; simpl.
    + by rewrite !decide_False.
    + destruct (decide (k0 = k')); auto.
Qed.

Lemma dict_get_None d k : dict_get d k = None ↔ k ∉ keys d.
Proof.
  unfold keys. induction d as [|[k0 x] d IH]; simpl.
  - split; [intros _; apply not_elem_of_nil | done].
  - rewrite not_elem_of_cons. destruct (decide (k0 = k)) as [->|Hne].
    + split; [done | intros [? _]; done].
    + rewrite IH. split; [intros ?; split; [congruence | done] | intros [_ ?]; done].
Qed.

Lemma dict_set_fresh d k v : k ∉ keys d → dict_set d k v = d ++ [(k, v)].
Proof.
  unfold keys. induction d as [|[k0 x] d IH]; simpl; [done|].
  rewrite not_elem_of_cons. intros [Hne Hnotin].
  rewrite decide_False by congruence. by rewrite IH.
Qed.

Lemma keys_dict_set d k v :
  keys (dict_set d k v) = if decide (k ∈ keys d) then keys d else keys d ++ [k].
Proof.
  unfold keys. induction d as [|[k0 x] d IH]; cbn [dict_set].
  - destruct (decide (k ∈ ([] : dict).*1)) as [Hin|_]; [|done].
    by apply elem_of_nil in Hin.
  - destruct (decide (k0 = k)) as [->|Hne]; rewrite !fmap_cons; cbn [fst].
    + destruct (decide (k ∈ k :: d.*1)) as [_|Hnotin]; [done|].
      destruct Hnotin. apply list_elem_of_here.
    + rewrite IH.
      destruct (decide (k ∈ d.*1)) as [Hin|Hnotin];
        destruct (decide (k ∈ k0 :: d.*1)) as [Hin'|Hnotin']; try done.
      * destruct Hnotin'. by apply list_elem_of_further.
      * apply elem_of_cons in Hin' as [->|?]; done.
Qed.

Lemma NoDup_keys_dict_set d k v : NoDup (keys d) → NoDup (keys (dict_set d k v)).
Proof.
  intros Hd. rewrite keys_dict_set. case_decide; [done|].
  apply NoDup_app. split_and!; [done | | apply NoDup_singleton].
  intros x Hx ->%list_elem_of_singleton. done.
Qed.

(** Assignment replaces one item or adds one: a property of all items
    of [d] and of the new item holds of all items afterwards. *)
Lemma Forall_dict_set (Q : string * value → Prop) d k v :
  Forall Q d → Q (k, v) → Forall Q (dict_set d k v).
Proof.
  intros Hd Hkv. induction Hd as [|[k0 x] d Hx Hd IH]; simpl.
  - by apply Forall_singleton.
  - destruct (decide (k0 = k)) as [->|Hne]; constructor; auto.
Qed.

(** A loop of assignments, one per item and to the item's own key, over
    items with keys all different and all new: it appends them. *)
Lemma fold_dict_set_fresh (f : dict → string * value → dict)
    (g : string * value → value) (items acc : dict) :
  (∀ a kv, f a kv = dict_set a kv.1 (g kv)) →
  NoDup (keys acc ++ keys items) →
  fold_left f items acc = acc ++ map (λ kv, (kv.1, g kv)) items.
Proof.
  intros Hf. revert acc. induction items as [|[k x] items IH]; intros acc Hnd; simpl.
  - by rewrite app_nil_r.
  - rewrite Hf. simpl.
    assert (k ∉ keys acc) as Hk.
    { apply NoDup_app in Hnd as (_ & Hdisj & _). intros Hin.
      apply (Hdisj k Hin). apply list_elem_of_here. }
    rewrite dict_set_fresh by done.
    rewrite IH.
    + by rewrite <- app_assoc.
    + unfold keys in *. rewrite fmap_app. simpl. rewrite <- app_assoc. done.
Qed.

(** The same loop from any items: the keys come out all different, and
    what holds of the start and of each assigned item holds at the end. *)
Lemma fold_dict_set_invariant (Q : string * value → Prop)
    (f : dict → string * value → dict) (g : string * value → value)
    (items acc : dict) :
  (∀ a kv, f a kv = dict_set a kv.1 (g kv)) →
  NoDup (keys acc) → Forall Q acc →
  Forall (λ kv, Q (kv.1, g kv)) items →
  NoDup (keys (fold_left f items acc)) ∧ Forall Q (fold_left f items acc).
Proof.
  intros Hf. revert acc. induction items as [|kv items IH]; intros acc Hnd Hacc Hitems; simpl.
  - done.
  - apply Forall_cons in Hitems as [Hkv Hitems].
    rewrite Hf. apply IH; [by apply NoDup_keys_dict_set | by apply Forall_dict_set | done].
Qed.

End dict_facts.

(** ** The redaction filter *)

Section redact_facts.
Import Utils.
Variable ks : list string.

Definition redact_item (kv : string * value) : value :=
  if decide (kv.1 ∈ ks) then REDACTED else redact kv.2 ks.

Definition redact_step (redacted : dict) (kv : string * value) : dict :=
  let '(key, value) := kv in
  if decide (key ∈ ks)
  then dict_set redacted key REDACTED
  else dict_set redacted key (redact value ks).

Lemma redact_dict_eq (d : dict) :
  redact (VDict d) ks = VDict (fold_left redact_step d []).
Proof. reflexivity. Qed.

Lemma redact_step_set (a : dict) (kv : string * value) :
  redact_step a kv = dict_set a kv.1 (redact_item kv).
Proof. destruct kv as [k v]. unfold redact_step, redact_item. simpl. by case_decide. Qed.

Lemma redact_dict_nodup (d : dict) :
  NoDup (keys d) →
  redact (VDict d) ks = VDict (map (λ kv, (kv.1, redact_item kv)) d).
Proof.
  intros Hnd. rewrite redact_dict_eq.
  by rewrite (fold_dict_set_fresh _ redact_item _ _ redact_step_set).
Qed.

Lemma redact_idempotent (v : value) : redact (redact v ks) ks = redact v ks.
Proof.
  induction v as [| | | | |l IH|d IH] using value_rect_nested; try reflexivity.
  - simpl. f_equal. rewrite map_map. apply map_ext_Forall. done.
  - rewrite redact_dict_eq.
    destruct (fold_dict_set_invariant
                (λ kv, redact_item kv = kv.2) redact_step redact_item d []
                redact_step_set) as [Hnd Hfix].
    { apply NoDup_nil_2. }
    { constructor. }
    { eapply Forall_impl; [exact IH|]. intros [k x] Hx. unfold redact_item. simpl in *.
      case_decide; [reflexivity | exact Hx]. }
    rewrite redact_dict_nodup by done. f_equal.
    rewrite <- (map_id (fold_left redact_step d [])) at 2.
    apply map_ext_Forall. eapply Forall_impl; [exact Hfix|].
    intros [k x] Hx. simpl in *. by rewrite Hx.
Qed.

End redact_facts.

Definition is_scalar (v : value) : bool :=
  match v with VList _ | VDict _ => false | _ => true end.

Definition redact_example : value :=
  VDict [("token", VStr "abc");
         ("nested", VDict [("token", VStr "def"); ("keep", VInt 1)])].

Definition redact_example_result : value :=
  VDict [("token", VStr "***REDACTED***");
         ("nested", VDict [("token", VStr "***REDACTED***"); ("keep", VInt 1)])].

(** C6. [redact] puts the marker at every key of a mapping that is a
    sensitive key, and does not look into the value it replaces; it goes on
    into the other values of the mapping and into every element of a
    sequence, and returns a scalar as it is.  Applying it twice with the
    same keys is applying it once.  On the example of the spec it puts the
    marker at both [token] keys and keeps [keep]. *)
Theorem redact_spec (ks : list string) :
  (∀ d : dict, NoDup (keys d) →
     Utils.redact (VDict d) ks
     = VDict (map (λ kv, (kv.1, if decide (kv.1 ∈ ks) then Utils.REDACTED
                                else Utils.redact kv.2 ks)) d))
  ∧ (∀ l, Utils.redact (VList l) ks = VList (map (λ x, Utils.redact x ks) l))
  ∧ (∀ v, is_scalar v = true → Utils.redact v ks = v)
  ∧ (∀ v, Utils.redact (Utils.redact v ks) ks = Utils.redact v ks)
  ∧ Utils.redact redact_example ["token"] = redact_example_result
  ∧ Utils.redact redact_example_result ["token"] = redact_example_result.
Proof.
  split_and!.
  - intros d Hnd. by rewrite redact_dict_nodup.
  - reflexivity.
  - by intros [].
  - apply redact_idempotent.
  - vm_compute. reflexivity.
  - vm_compute. reflexivity.
Qed.

Lemma redact_spec_witness :
  NoDup (keys [("token", VStr "abc"); ("keep", VInt 1)])
  ∧ Utils.redact (VDict [("token", VStr "abc"); ("keep", VInt 1)]) ["token"]
    = VDict [("token", Utils.REDACTED); ("keep", VInt 1)].
Proof.
  assert (NoDup (keys [("token", VStr "abc"); ("keep", VInt 1)])) as Hnd.
  { apply (bool_decide_unpack _). vm_compute. exact I. }
  split; [exact Hnd|].
  exact (proj1 (redact_spec ["token"]) _ Hnd).
Defined.

(** ** Results *)

Lemma bind_inv_Ok {A B : Type} (f : A → result B) (m : result A) (b : B) :
  (m ≫= f) = Ok b → ∃ a, m = Ok a ∧ f a = Ok b.
Proof. destruct m as [x|e|]; simpl; intros H; try discriminate. eauto. Qed.

Lemma foldM_ext {A B : Type} (f g : B → A → result B) (l : list A) (acc : B) :
  (∀ b a, a ∈ l → f b a = g b a) → foldM f acc l = foldM g acc l.
Proof.
  revert acc. induction l as [|x l IH]; intros acc Hfg; simpl; [done|].
  rewrite Hfg by apply list_elem_of_here.
  destruct (g acc x) as [acc'|e|]; simpl; try done.
  apply IH. intros b a Ha. apply Hfg. by apply list_elem_of_further.
Qed.

(** A loop whose every step returns is the plain fold. *)
Lemma foldM_Ok {A B C : Type} (f : B → A → result B) (g : A → result C)
    (h : B → C → B) (l : list A) (cs : list C) (acc : B) :
  (∀ b a, f b a = (c ← g a; Ok (h b c))) →
  Forall2 (λ a c, g a = Ok c) l cs →
  foldM f acc l = Ok (fold_left h cs acc).
Proof.
  intros Hf Hl. revert acc. induction Hl as [|a c l cs Ha Hl IH]; intros acc; simpl; [done|].
  rewrite Hf, Ha. simpl. apply IH.
Qed.

(** A loop over two lists, one after the other. *)
Lemma foldM_app {A B : Type} (f : B → A → result B) (l1 l2 : list A) (acc : B) :
  foldM f acc (l1 ++ l2) = (acc' ← foldM f acc l1; foldM f acc' l2).
Proof.
  revert acc. induction l1 as [|x l1 IH]; intros acc; simpl; [done|].
  destruct (f acc x) as [acc'|e|]; simpl; auto.
Qed.

Lemma py_attr_get_fuel (v : value) (key : string) : py_attr_get v key ≠ OutOfFuel.
Proof. by destruct v. Qed.

Lemma py_iter_fuel (v : value) : py_iter v ≠ OutOfFuel.
Proof. by destruct v. Qed.

Lemma py_len_fuel (v : value) : py_len v ≠ OutOfFuel.
Proof. by destruct v. Qed.

Lemma include_path_fuel (fs : Relay.filesystem) (path : string) (name : value) :
  Relay.include_path fs path name ≠ OutOfFuel.
Proof. by destruct name. Qed.

(** Case analysis on the result of a call that cannot run out of fuel. *)
Ltac case_call m x H :=
  let e := fresh "e" in
  destruct m as [x|e|] eqn:H; simpl in *;
  [ | try done
    | first [ by apply py_attr_get_fuel in H
            | by apply py_iter_fuel in H
            | by apply py_len_fuel in H
            | by apply include_path_fuel in H
            | done ] ].

(** ** Recursion depth of the resolver *)

Section fuel.
Import Relay.
Variable fs : filesystem.

Definition include_step (fuel : nat) (path : string) (ancestry : list string)
    (merged : dict) (include_name : value) : result dict :=
  target ← include_path fs path include_name;
  included ← load_stack_fuel fs fuel target (ancestry ++ [path]);
  Ok (_deep_merge merged included).

Lemma load_stack_fuel_S (fuel : nat) (path : string) (ancestry : list string) :
  load_stack_fuel fs (S fuel) path ancestry =
    if decide (path ∈ ancestry)
    then Raise (CircularInclude (ancestry ++ [path]))
    else
      data ← _load_yaml fs path;
      inc ← py_attr_get data "include";
      includes ← py_iter (py_or inc (VList []));
      merged ← foldM (include_step fuel path ancestry) [] includes;
      match data with
      | VDict items => Ok (_deep_merge merged (body_of items))
      | _ => Raise (PyError AttributeError
                      ("'" +:+ type_name data +:+ "' object has no attribute 'items'"))
      end.
Proof. reflexivity. Qed.

Lemma foldM_not_out_of_fuel {A B : Type} (f : B → A → result B) (l : list A) (acc : B) :
  (∀ b a, a ∈ l → f b a ≠ OutOfFuel) → foldM f acc l ≠ OutOfFuel.
Proof.
  revert acc. induction l as [|x l IH]; intros acc Hf; simpl; [done|].
  destruct (f acc x) as [acc'|e|] eqn:Hx; simpl; try done.
  - apply IH. intros b a Ha. apply Hf. by apply list_elem_of_further.
  - exfalso. eapply Hf; [apply list_elem_of_here | exact Hx].
Qed.

Lemma foldM_mono {A B : Type} (f g : B → A → result B) (l : list A) (acc : B) :
  (∀ b a, f b a ≠ OutOfFuel → g b a = f b a) →
  foldM f acc l ≠ OutOfFuel → foldM g acc l = foldM f acc l.
Proof.
  intros Hfg. revert acc. induction l as [|x l IH]; intros acc Hf; simpl in *; [done|].
  destruct (f acc x) as [acc'|e|] eqn:Hx; simpl in *.
  - rewrite Hfg, Hx by (by rewrite Hx). simpl. by apply IH.
  - by rewrite Hfg, Hx by (by rewrite Hx).
  - done.
Qed.

(** More fuel does not change a result that was reached. *)
Lemma load_stack_fuel_mono (n m : nat) (path : string) (ancestry : list string) :
  n ≤ m →
  load_stack_fuel fs n path ancestry ≠ OutOfFuel →
  load_stack_fuel fs m path ancestry = load_stack_fuel fs n path ancestry.
Proof.
  revert m path ancestry. induction n as [|n IH]; intros m path ancestry Hle Hn.
  { by destruct Hn. }
  destruct m as [|m]; [lia|].
  rewrite !load_stack_fuel_S in *.
  case_decide; [done|].
  case_call (_load_yaml fs path) data Hdata.
  case_call (py_attr_get data "include") inc Hinc.
  case_call (py_iter (py_or inc (VList []))) includes Hincludes.
  assert (foldM (include_step n path ancestry) [] includes ≠ OutOfFuel) as Hfold.
  { intros Hoof. by rewrite Hoof in Hn. }
  rewrite (foldM_mono (include_step n path ancestry)); [done| |done].
  intros b a Hstep. unfold include_step in *.
  case_call (include_path fs path a) target Htarget.
  rewrite IH; [done|lia|].
  intros Hoof. by rewrite Hoof in Hstep.
Qed.

Lemma NoDup_files_length (seen : list string) :
  NoDup seen → (∀ x, x ∈ seen → is_Some (files fs !! x)) →
  length seen ≤ size (files fs).
Proof.
  intros Hnd Hin. rewrite <- size_dom. unfold size, set_size. simpl.
  apply submseteq_length, NoDup_submseteq; [done|].
  intros x Hx. apply elem_of_elements, elem_of_dom. auto.
Qed.

(** Every path added to the ancestry was loaded and was not yet in it:
    with [seen] such paths below, the depth left is at most the number of
    other files. *)
Lemma load_stack_fuel_enough (n : nat) (path : string) (ancestry seen : list string) :
  NoDup seen → seen ⊆ ancestry →
  (∀ x, x ∈ seen → is_Some (files fs !! x)) →
  size (files fs) < n + length seen →
  load_stack_fuel fs n path ancestry ≠ OutOfFuel.
Proof.
  revert path ancestry seen.
  induction n as [|n IH]; intros path ancestry seen Hnd Hsub Hfiles Hsize.
  { pose proof (NoDup_files_length seen Hnd Hfiles). simpl in Hsize. lia. }
  rewrite load_stack_fuel_S. case_decide as Hanc; [done|].
  unfold _load_yaml. destruct (files fs !! path) as [[content|]|] eqn:Hpath; simpl; try done.
  case_call (py_attr_get (py_or content (VDict [])) "include") inc Hinc.
  case_call (py_iter (py_or inc (VList []))) includes Hincludes.
  match goal with |- (?m ≫= _) ≠ _ => assert (m ≠ OutOfFuel) as Hfold end.
  { apply foldM_not_out_of_fuel. intros b a _. unfold include_step.
    case_call (include_path fs path a) target Htarget.
    match goal with |- (?m ≫= _) ≠ _ => assert (m ≠ OutOfFuel) as Hrec end.
    { apply (IH _ _ (path :: seen)).
      - constructor; [|done]. intros Hin. apply Hanc, Hsub, Hin.
      - intros x [->|Hx]%elem_of_cons; apply elem_of_app; [right|left].
        + apply list_elem_of_here.
        + by apply Hsub.
      - intros x [->|Hx]%elem_of_cons; [by rewrite Hpath | by apply Hfiles].
      - simpl. lia. }
    destruct (load_stack_fuel fs n target (ancestry ++ [path])); simpl; done. }
  destruct (foldM _ _ _); simpl; try done.
  by repeat case_match.
Qed.

(** [_load_stack_with_includes] always returns or raises. *)
Lemma load_stack_total (path : string) (ancestry : list string) :
  _load_stack_with_includes fs path ancestry ≠ OutOfFuel.
Proof.
  apply (load_stack_fuel_enough _ _ _ []).
  - constructor.
  - intros x Hx. by apply elem_of_nil in Hx.
  - intros x Hx. by apply elem_of_nil in Hx.
  - simpl. lia.
Qed.

Definition include_call (path : string) (ancestry : list string)
    (merged : dict) (include_name : value) : result dict :=
  target ← include_path fs path include_name;
  included ← _load_stack_with_includes fs target (ancestry ++ [path]);
  Ok (_deep_merge merged included).

(** The body of [_load_stack_with_includes], each recursive call being
    a call of [_load_stack_with_includes] itself. *)
Lemma load_stack_unfold (path : string) (ancestry : list string) :
  _load_stack_with_includes fs path ancestry =
    if decide (path ∈ ancestry)
    then Raise (CircularInclude (ancestry ++ [path]))
    else
      data ← _load_yaml fs path;
      inc ← py_attr_get data "include";
      includes ← py_iter (py_or inc (VList []));
      merged ← foldM (include_call path ancestry) [] includes;
      match data with
      | VDict items => Ok (_deep_merge merged (body_of items))
      | _ => Raise (PyError AttributeError
                      ("'" +:+ type_name data +:+ "' object has no attribute 'items'"))
      end.
Proof.
  unfold _load_stack_with_includes at 1. rewrite load_stack_fuel_S.
  case_decide as Hanc; [done|].
  unfold _load_yaml. destruct (files fs !! path) as [[content|]|] eqn:Hpath; simpl; try done.
  case_call (py_attr_get (py_or content (VDict [])) "include") inc Hinc.
  case_call (py_iter (py_or inc (VList []))) includes Hincludes.
  f_equal. apply foldM_ext. intros b a _. unfold include_step, include_call.
  case_call (include_path fs path a) target Htarget.
  unfold _load_stack_with_includes.
  rewrite (load_stack_fuel_mono (size (files fs)) (S (size (files fs)))); [done|lia|].
  apply (load_stack_fuel_enough _ _ _ [path]).
  - apply NoDup_singleton.
  - intros x ->%list_elem_of_singleton. apply elem_of_app. right. apply list_elem_of_here.
  - intros x ->%list_elem_of_singleton. by rewrite Hpath.
  - simpl. lia.
Qed.

End fuel.

(** ** Deep merge *)

Section merge_facts.
Import Relay.

(** What [_deep_merge] assigns at a key whose value so far is [old]. *)
Definition merge_value (old : option value) (v : value) : value :=
  match old, v with
  | Some (VDict r), VDict i => VDict (_deep_merge r i)
  | _, _ => v
  end.

Definition merge_step (result : dict) (kv : string * value) : dict :=
  dict_set result kv.1 (merge_value (dict_get result kv.1) kv.2).

Lemma deep_merge_fold (base incoming : dict) :
  _deep_merge base incoming = fold_left merge_step incoming base.
Proof.
  unfold _deep_merge. cbn [deep_merge_value].
  revert base. induction incoming as [|[k v] incoming IH]; intros base; simpl; [done|].
  rewrite IH. f_equal. unfold merge_step, merge_value. simpl.
  destruct (dict_get base k) as [[]|]; destruct v; reflexivity.
Qed.

Lemma deep_merge_nil_r (base : dict) : _deep_merge base [] = base.
Proof. by rewrite deep_merge_fold. Qed.

Lemma deep_merge_cons (base incoming : dict) (kv : string * value) :
  _deep_merge base (kv :: incoming) = _deep_merge (merge_step base kv) incoming.
Proof. by rewrite !deep_merge_fold. Qed.

(** The keys of the incoming mapping, read back from the merge. *)
Lemma deep_merge_get (base incoming : dict) (k : string) :
  NoDup (keys incoming) →
  dict_get (_deep_merge base incoming) k =
    match dict_get incoming k with
    | Some v => Some (merge_value (dict_get base k) v)
    | None => dict_get base k
    end.
Proof.
  revert base. induction incoming as [|[k0 v0] incoming IH]; intros base Hnd.
  { by rewrite deep_merge_nil_r. }
  unfold keys in Hnd. rewrite fmap_cons in Hnd. apply NoDup_cons in Hnd as [Hk0 Hnd].
  rewrite deep_merge_cons, IH by done. unfold merge_step. simpl.
  destruct (decide (k0 = k)) as [->|Hne].
  - simpl in Hk0. apply dict_get_None in Hk0. rewrite Hk0. by rewrite dict_get_set_eq.
  - by rewrite !dict_get_set_ne.
Qed.

Definition body_step (body : dict) (kv : string * value) : dict :=
  if decide (kv.1 ≠ "include") then dict_set body kv.1 kv.2 else body.

Lemma body_of_invariant (items acc : dict) :
  NoDup (keys acc) → "include" ∉ keys acc →
  NoDup (keys (fold_left body_step items acc))
  ∧ "include" ∉ keys (fold_left body_step items acc).
Proof.
  revert acc. induction items as [|[k v] items IH]; intros acc Hnd Hinc; simpl; [done|].
  apply IH; unfold body_step; simpl; case_decide; try done.
  - by apply NoDup_keys_dict_set.
  - rewrite keys_dict_set. case_decide; [done|].
    rewrite elem_of_app, list_elem_of_singleton. intros [?|?]; done.
Qed.

Lemma body_of_nodup (items : dict) : NoDup (keys (body_of items)).
Proof. apply (body_of_invariant items []); [constructor | apply not_elem_of_nil]. Qed.

(** After resolution no [include] key remains in the body. *)
Lemma body_of_include (items : dict) : dict_get (body_of items) "include" = None.
Proof.
  apply dict_get_None.
  apply (body_of_invariant items []); [constructor | apply not_elem_of_nil].
Qed.

(** For a mapping with no key twice, the body is the mapping without
    its [include] item. *)
Lemma body_of_filter (items : dict) :
  NoDup (keys items) → body_of items = filter (λ kv, kv.1 ≠ "include") items.
Proof.
  intros Hnd. unfold body_of. change (λ body kv, _) with body_step.
  cut (∀ acc, NoDup (keys acc ++ keys items) →
         fold_left body_step items acc
         = acc ++ filter (λ kv, kv.1 ≠ "include") items).
  { intros H. by apply (H []). }
  clear Hnd. induction items as [|[k v] items IH]; intros acc Hnd; simpl.
  { by rewrite app_nil_r. }
  assert (k ∉ keys acc) as Hk.
  { apply NoDup_app in Hnd as (_ & Hdisj & _). intros Hin.
    apply (Hdisj k Hin). apply list_elem_of_here. }
  unfold keys in Hnd. rewrite fmap_cons in Hnd. simpl in Hnd.
  rewrite filter_cons. unfold body_step at 2. simpl.
  destruct (decide (k ≠ "include")) as [Hne|Heq].
  - rewrite dict_set_fresh by done. rewrite IH.
    + by rewrite <- app_assoc.
    + unfold keys. rewrite fmap_app. simpl. by rewrite <- app_assoc.
  - apply IH. apply NoDup_app in Hnd as (Ha & Hdisj & Hi).
    apply NoDup_cons in Hi as [_ Hi]. apply NoDup_app. split_and!; [done| |done].
    intros x Hx Hx'. apply (Hdisj x Hx). by apply list_elem_of_further.
Qed.

End merge_facts.

(** The merge of the spec: [{a: {x: 1, y: 2}}] with [{a: {y: 3, z: 4}}]. *)
Example deep_merge_precedence :
  Relay._deep_merge [("a", VDict [("x", VInt 1); ("y", VInt 2)])]
                    [("a", VDict [("y", VInt 3); ("z", VInt 4)])]
  = [("a", VDict [("x", VInt 1); ("y", VInt 3); ("z", VInt 4)])].
Proof. reflexivity. Qed.

(** ** A directory of stack documents, for the examples *)

Definition is_absolute_posix (p : string) : bool :=
  match p with
  | String a _ => String.eqb (String a EmptyString) "/"
  | EmptyString => false
  end.

(** The documents [docs], by path, all in the directory [/app/stacks],
    which lists [listing]. *)
Definition stacks_fs (docs : list (string * yaml_file)) (listing : list string)
    : Relay.filesystem :=
  {| Relay.files := list_to_map docs;
     Relay.BASE_DIR := "/app";
     Relay.parent := λ _, "/app/stacks";
     Relay.join := λ dir name, dir +:+ "/" +:+ name;
     Relay.resolve := λ p, p;
     Relay.is_absolute := is_absolute_posix;
     Relay.path_exists :=
       λ p, bool_decide (is_Some ((list_to_map docs : gmap string yaml_file) !! p));
     Relay.glob_yaml := λ _, listing |}.

(** ** Includes against the body *)

(** [D] includes [B]; both define [k]. *)
Definition precedence_fs : Relay.filesystem :=
  stacks_fs
    [("/app/stacks/d.yaml",
      YamlDoc (VDict [("include", VList [VStr "b.yaml"]); ("k", VStr "body")]));
     ("/app/stacks/b.yaml", YamlDoc (VDict [("k", VStr "include")]))]
    ["b.yaml"; "d.yaml"].

(** [D] includes [B]; both define [a], as mappings. *)
Definition nested_fs : Relay.filesystem :=
  stacks_fs
    [("/app/stacks/d.yaml",
      YamlDoc (VDict [("include", VList [VStr "b.yaml"]);
                      ("a", VDict [("y", VInt 2)])]));
     ("/app/stacks/b.yaml", YamlDoc (VDict [("a", VDict [("x", VInt 1)])]))]
    ["b.yaml"; "d.yaml"].

Section include_facts.
Import Relay.
Variable fs : filesystem.

Lemma include_loop_Ok (path : string) (ancestry : list string)
    (names : list string) (configs : list dict) :
  Forall2
    (λ name cfg,
       _load_stack_with_includes fs
         (resolve fs (join fs (parent fs path) name)) (ancestry ++ [path])
       = Ok cfg)
    names configs →
  foldM (include_call fs path ancestry) [] (VStr <$> names)
  = Ok (fold_left _deep_merge configs []).
Proof.
  intros Hall.
  apply (foldM_Ok _
           (λ a, target ← include_path fs path a;
                 _load_stack_with_includes fs target (ancestry ++ [path]))).
  - intros b a. unfold include_call.
    by destruct (include_path fs path a).
  - apply Forall2_fmap_l. eapply Forall2_impl; [exact Hall|]. done.
Qed.

Lemma resolve_with_includes (path : string) (ancestry : list string)
    (items : dict) (names : list string) (configs : list dict) :
  path ∉ ancestry →
  _load_yaml fs path = Ok (VDict items) →
  dict_get items "include" = Some (VList (VStr <$> names)) →
  Forall2
    (λ name cfg,
       _load_stack_with_includes fs
         (resolve fs (join fs (parent fs path) name)) (ancestry ++ [path])
       = Ok cfg)
    names configs →
  _load_stack_with_includes fs path ancestry
  = Ok (_deep_merge (fold_left _deep_merge configs []) (body_of items)).
Proof.
  intros Hanc Hload Hinc Hall.
  rewrite load_stack_unfold, decide_False, Hload by done. simpl.
  unfold py_get. rewrite Hinc. simpl.
  assert (py_iter (py_or (VList (VStr <$> names)) (VList [])) = Ok (VStr <$> names)) as ->.
  { by destruct names. }
  simpl. by rewrite (include_loop_Ok _ _ _ configs).
Qed.

End include_facts.

(** C1, as the code has it.  A document that loads as a mapping with an
    include list, every include resolving, resolves to the includes merged
    left to right and then its own body, with no [include] key, merged
    last.  A key of the body then reads as the body has it, unless the
    body's value and the value merged from the includes are both mappings:
    these are merged in turn, the body's entries last.  With [include: [B]],
    a body [{k: body}] and [B] defining [{k: include}], [k] reads [body]. *)
Theorem include_then_body :
  (∀ (fs : Relay.filesystem) (path : string) (ancestry : list string)
     (items : dict) (names : list string) (configs : list dict),
     path ∉ ancestry →
     Relay._load_yaml fs path = Ok (VDict items) →
     dict_get items "include" = Some (VList (VStr <$> names)) →
     Forall2
       (λ name cfg,
          Relay._load_stack_with_includes fs
            (Relay.resolve fs (Relay.join fs (Relay.parent fs path) name))
            (ancestry ++ [path])
          = Ok cfg)
       names configs →
     let merged := fold_left Relay._deep_merge configs [] in
     let body := Relay.body_of items in
     let resolved := Relay._deep_merge merged body in
     Relay._load_stack_with_includes fs path ancestry = Ok resolved
     ∧ dict_get body "include" = None
     ∧ (NoDup (keys items) → body = filter (λ kv, kv.1 ≠ "include") items)
     ∧ (∀ k v, dict_get body k = Some v → is_dict v = false →
          dict_get resolved k = Some v)
     ∧ (∀ k v, dict_get body k = Some v →
          (∀ r, dict_get merged k ≠ Some (VDict r)) →
          dict_get resolved k = Some v)
     ∧ (∀ k i r, dict_get body k = Some (VDict i) →
          dict_get merged k = Some (VDict r) →
          dict_get resolved k = Some (VDict (Relay._deep_merge r i))))
  ∧ (∃ resolved,
       Relay._load_stack_with_includes precedence_fs "/app/stacks/d.yaml" []
       = Ok resolved
       ∧ dict_get resolved "k" = Some (VStr "body")).
Proof.
  split.
  - intros fs path ancestry items names configs Hanc Hload Hinc Hall merged body resolved.
    assert (∀ k v, dict_get body k = Some v →
              dict_get resolved k = Some (merge_value (dict_get merged k) v)) as Hget.
    { intros k v Hk. unfold resolved.
      rewrite deep_merge_get by apply body_of_nodup. by rewrite Hk. }
    split_and!.
    + by apply resolve_with_includes with names.
    + apply body_of_include.
    + apply body_of_filter.
    + intros k v Hk Hv. rewrite (Hget k v Hk). f_equal.
      unfold merge_value. destruct (dict_get merged k) as [[]|]; destruct v; done.
    + intros k v Hk Hm. rewrite (Hget k v Hk). f_equal.
      unfold merge_value.
      destruct (dict_get merged k) as [[| | | | | |r]|] eqn:Hmk; try done.
      by destruct (Hm r).
    + intros k i r Hk Hm. rewrite (Hget k _ Hk), Hm. done.
  - eexists. split; vm_compute; reflexivity.
Qed.

Lemma include_then_body_witness :
  Relay._load_stack_with_includes nested_fs "/app/stacks/d.yaml" []
  = Ok [("a", VDict [("x", VInt 1); ("y", VInt 2)])].
Proof.
  refine (proj1
    (proj1 include_then_body nested_fs "/app/stacks/d.yaml" []
       [("include", VList [VStr "b.yaml"]); ("a", VDict [("y", VInt 2)])]
       ["b.yaml"] [[("a", VDict [("x", VInt 1)])]] _ _ _ _)).
  - apply not_elem_of_nil.
  - vm_compute. reflexivity.
  - vm_compute. reflexivity.
  - constructor; [vm_compute; reflexivity | constructor].
Defined.

(** C1, as stated, fails where an include and the body both give a
    mapping at a key: the body's value [{y: 2}] does not replace the
    include's [{x: 1}]; the key reads [{x: 1, y: 2}]. *)
Lemma include_value_survives_body :
  dict_get
    (Relay.body_of [("include", VList [VStr "b.yaml"]); ("a", VDict [("y", VInt 2)])])
    "a"
  = Some (VDict [("y", VInt 2)])
  ∧ Relay._load_stack_with_includes nested_fs "/app/stacks/d.yaml" []
    = Ok [("a", VDict [("x", VInt 1); ("y", VInt 2)])]
  ∧ dict_get [("a", VDict [("x", VInt 1); ("y", VInt 2)])] "a"
    ≠ Some (VDict [("y", VInt 2)]).
Proof.
  split_and!; [vm_compute; reflexivity | vm_compute; reflexivity |].
  vm_compute. discriminate.
Qed.

(** ** Include cycles *)

Lemma foldM_inv {A B : Type} (f : B → A → result B) (l : list A) (acc : B) :
  (∃ b, foldM f acc l = Ok b ∧ ∀ a, a ∈ l → ∃ b1 b2, f b1 a = Ok b2)
  ∨ (∃ b a, a ∈ l ∧ f b a = foldM f acc l ∧ ∀ b', foldM f acc l ≠ Ok b').
Proof.
  revert acc. induction l as [|x l IH]; intros acc; simpl.
  { left. exists acc. split; [done|]. intros a Ha. by apply elem_of_nil in Ha. }
  destruct (f acc x) as [acc'|e|] eqn:Hx; simpl.
  - destruct (IH acc') as [(b & Hb & Hall)|(b & a & Ha & Hfa & Hne)].
    + left. exists b. split; [done|].
      intros a [->|Ha]%elem_of_cons; eauto.
    + right. exists b, a. split_and!; [by apply list_elem_of_further | done | done].
  - right. exists acc, x. split_and!; [apply list_elem_of_here | done | done].
  - right. exists acc, x. split_and!; [apply list_elem_of_here | done | done].
Qed.

Section cycle_facts.
Import Relay.
Variable fs : filesystem.

(** The names a document includes, in the order the loop visits them. *)
Definition include_names (data : value) : result (list value) :=
  inc ← py_attr_get data "include";
  py_iter (py_or inc (VList [])).

(** [q] is the target of an include of the document at [p]. *)
Definition includes (p q : string) : Prop :=
  ∃ data names name,
    _load_yaml fs p = Ok data ∧ include_names data = Ok names
    ∧ VStr name ∈ names ∧ q = resolve fs (join fs (parent fs p) name).

(** A chain of includes, from its first document on. *)
Inductive include_chain : list string → Prop :=
  | chain_one (p : string) : include_chain [p]
  | chain_cons (p q : string) (w : list string) :
      includes p q → include_chain (q :: w) → include_chain (p :: q :: w).

(** The last document of the report is one of those before it. *)
Definition closes_cycle (chain : list string) : Prop :=
  ∃ before p, chain = before ++ [p] ∧ p ∈ before.

(** The strings of a list of names, when all are strings. *)
Fixpoint str_names (names : list value) : option (list string) :=
  match names with
  | [] => Some []
  | VStr s :: rest => cons s <$> str_names rest
  | _ :: _ => None
  end.

(** The targets of the includes of a document that is a mapping and
    names its includes by strings. *)
Definition targets_of (path : string) : option (list string) :=
  match _load_yaml fs path with
  | Ok (VDict items) =>
      match include_names (VDict items) with
      | Ok names =>
          match str_names names with
          | Some ss => Some (map (λ s, resolve fs (join fs (parent fs path) s)) ss)
          | None => None
          end
      | _ => None
      end
  | _ => None
  end.

Lemma str_names_Some (names : list value) (ss : list string) :
  str_names names = Some ss → names = VStr <$> ss.
Proof.
  revert ss. induction names as [|x names IH]; intros ss H; simpl in H.
  { by simplify_eq. }
  destruct x; try done.
  destruct (str_names names) as [ss'|]; simplify_eq/=.
  by rewrite (IH ss').
Qed.

Definition well_formed_doc (path : string) : bool :=
  match targets_of path with
  | Some targets => forallb (λ t, bool_decide (is_Some (files fs !! t))) targets
  | None => false
  end.

(** Every file is a mapping whose includes are names of files. *)
Definition closed : Prop :=
  map_Forall (λ path _, well_formed_doc path = true) (files fs).

Lemma load_stack_fuel_step (n : nat) (p : string) (a : list string) (data : value)
    (names : list value) :
  p ∉ a → _load_yaml fs p = Ok data → include_names data = Ok names →
  load_stack_fuel fs (S n) p a =
    (merged ← foldM (include_step fs n p a) [] names;
     match data with
     | VDict items => Ok (_deep_merge merged (body_of items))
     | _ => Raise (PyError AttributeError
                     ("'" +:+ type_name data +:+ "' object has no attribute 'items'"))
     end).
Proof.
  intros Ha Hdata Hnames. rewrite load_stack_fuel_S, decide_False, Hdata by done.
  simpl. unfold include_names in Hnames.
  destruct (py_attr_get data "include") as [inc|e|]; simpl in *; try done.
  by rewrite Hnames.
Qed.

(** A resolution that returns has met no document twice along any chain
    of includes from its path, nor any document of its ancestry. *)
Lemma load_stack_Ok_chain (n : nat) (p : string) (a : list string) (cfg : dict) :
  load_stack_fuel fs n p a = Ok cfg →
  ∀ w, include_chain (p :: w) → NoDup (p :: w) ∧ ∀ x, x ∈ p :: w → x ∉ a.
Proof.
  revert p a cfg. induction n as [|n IH]; intros p a cfg Hres w Hw; [done|].
  rewrite load_stack_fuel_S in Hres. case_decide as Hpa; [done|].
  inversion Hw as [|p' q w' (data & names & name & Hdata & Hnames & Hname & ->) Hw']; subst.
  { split; [apply NoDup_singleton|]. by intros x ->%list_elem_of_singleton. }
  rewrite Hdata in Hres. simpl in Hres. unfold include_names in Hnames.
  destruct (py_attr_get data "include") as [inc|e|]; simpl in *; try done.
  rewrite Hnames in Hres. simpl in Hres.
  apply bind_inv_Ok in Hres as (merged & Hfold & _).
  destruct (foldM_inv (include_step fs n p a) names [])
    as [(b & _ & Hall)|(b & x & _ & _ & Hne)]; [|by destruct (Hne merged)].
  destruct (Hall _ Hname) as (b1 & b2 & Hstep). unfold include_step in Hstep. simpl in Hstep.
  apply bind_inv_Ok in Hstep as (included & Hrec & _).
  destruct (IH _ _ _ Hrec _ Hw') as [Hnd Hanc].
  split.
  - constructor; [|done]. intros Hin. apply (Hanc p Hin).
    apply elem_of_app. right. apply list_elem_of_here.
  - intros x [->|Hx]%elem_of_cons; [done|].
    intros Hxa. apply (Hanc x Hx). apply elem_of_app. by left.
Qed.

Lemma targets_of_inv (path : string) (targets : list string) :
  targets_of path = Some targets →
  ∃ items names,
    _load_yaml fs path = Ok (VDict items)
    ∧ include_names (VDict items) = Ok (VStr <$> names)
    ∧ targets = (λ s, resolve fs (join fs (parent fs path) s)) <$> names.
Proof.
  unfold targets_of. intros H.
  destruct (_load_yaml fs path) as [[| | | | | |items]| |]; try done.
  destruct (include_names (VDict items)) as [names| |] eqn:Hnames; try done.
  destruct (str_names names) as [ss|] eqn:Hss; simplify_eq/=.
  apply str_names_Some in Hss as ->. by exists items, ss.
Qed.

(** In a closed directory a resolution returns or reports a cycle: the
    report is the ancestry, then a chain of includes from the path, and its
    last document is one of those before it. *)
Lemma load_stack_closed (n : nat) (p : string) (a : list string) :
  closed → is_Some (files fs !! p) →
  (∃ cfg, load_stack_fuel fs n p a = Ok cfg)
  ∨ load_stack_fuel fs n p a = OutOfFuel
  ∨ (∃ w, load_stack_fuel fs n p a = Raise (CircularInclude (a ++ p :: w))
          ∧ include_chain (p :: w) ∧ closes_cycle (a ++ p :: w)).
Proof.
  intros Hclosed. revert p a. induction n as [|n IH]; intros p a [f Hp]; [by right; left|].
  destruct (decide (p ∈ a)) as [Hpa|Hpa].
  { right; right. exists []. rewrite load_stack_fuel_S, decide_True by done.
    split_and!; [done | constructor | by exists a, p]. }
  pose proof (Hclosed p f Hp) as Hwf. unfold well_formed_doc in Hwf.
  destruct (targets_of p) as [targets|] eqn:Htargets; [|done].
  apply targets_of_inv in Htargets as (items & names & Hload & Hnames & ->).
  rewrite (load_stack_fuel_step n p a _ _ Hpa Hload Hnames).
  destruct (foldM_inv (include_step fs n p a) (VStr <$> names) [])
    as [(b & -> & _)|(b & x & Hx & Hstep & Hne)]; [left; eauto|].
  destruct (foldM _ _ _) as [merged|e|] eqn:Hfold; [by destruct (Hne merged)| |by right; left].
  right; right. simpl.
  apply list_elem_of_fmap in Hx as (name & -> & Hname).
  unfold include_step in Hstep. simpl in Hstep.
  set (q := resolve fs (join fs (parent fs p) name)) in *.
  assert (is_Some (files fs !! q)) as Hq.
  { rewrite List.forallb_forall in Hwf.
    apply (bool_decide_eq_true_1 _), Hwf, list_elem_of_In, list_elem_of_fmap. eauto. }
  destruct (IH q (a ++ [p]) Hq) as [[cfg Hcfg]|[Hoof|(w & Hw & Hchain & Hcyc)]].
  - by rewrite Hcfg in Hstep.
  - by rewrite Hoof in Hstep.
  - rewrite Hw in Hstep. simpl in Hstep. injection Hstep as <-.
    exists (q :: w). rewrite <- app_assoc in *. simpl in *. split_and!; [done| |done].
    constructor; [|done]. exists (VDict items), (VStr <$> names), name.
    split_and!; [done | done | | done].
    apply list_elem_of_fmap. eauto.
Qed.

(** The resolution of [p] under [ancestry] gets to the documents of [w],
    one after the other, and there meets a document again.  Each document
    on the way is not in the ancestry it is resolved under; it loads, and
    lists its includes; those listed before the one that leads on resolve;
    the next document is the one that include names.  The last document is
    in the ancestry it is resolved under. *)
Inductive reaches : list string → string → list string → Prop :=
  | reaches_met (ancestry : list string) (p : string) :
      p ∈ ancestry → reaches ancestry p []
  | reaches_include (ancestry : list string) (p q : string) (w : list string)
      (data : value) (before : list string) (name : string) (after : list value) :
      p ∉ ancestry →
      _load_yaml fs p = Ok data →
      include_names data = Ok ((VStr <$> before) ++ VStr name :: after) →
      Forall
        (λ earlier,
           ∃ cfg,
             _load_stack_with_includes fs
               (resolve fs (join fs (parent fs p) earlier)) (ancestry ++ [p])
             = Ok cfg)
        before →
      q = resolve fs (join fs (parent fs p) name) →
      reaches (ancestry ++ [p]) q w →
      reaches ancestry p (q :: w).

(** The includes that resolve are merged, whatever was merged before. *)
Lemma include_loop_resolves (path : string) (ancestry : list string)
    (names : list string) (acc : dict) :
  Forall
    (λ name,
       ∃ cfg,
         _load_stack_with_includes fs
           (resolve fs (join fs (parent fs path) name)) (ancestry ++ [path])
         = Ok cfg)
    names →
  ∃ merged, foldM (include_call fs path ancestry) acc (VStr <$> names) = Ok merged.
Proof.
  intros Hnames. revert acc.
  induction Hnames as [|name names [cfg Hcfg] _ IH]; intros acc; [by exists acc|].
  assert (include_call fs path ancestry acc (VStr name) = Ok (_deep_merge acc cfg))
    as Hcall.
  { unfold include_call. simpl. by rewrite Hcfg. }
  rewrite fmap_cons. simpl. rewrite Hcall. simpl. apply IH.
Qed.

(** The chain that a resolution reaches is what its cycle error reports,
    after the ancestry. *)
Lemma load_stack_reaches (ancestry : list string) (p : string) (w : list string) :
  reaches ancestry p w →
  _load_stack_with_includes fs p ancestry
  = Raise (CircularInclude (ancestry ++ p :: w)).
Proof.
  induction 1
    as [ancestry p Hmet
       |ancestry p q w data before name after Hanc Hload Hnames Hbefore -> _ IH].
  - by rewrite load_stack_unfold, decide_True.
  - rewrite load_stack_unfold, decide_False, Hload by done. simpl.
    unfold include_names in Hnames.
    destruct (py_attr_get data "include") as [inc|e|]; simpl in *; try done.
    rewrite Hnames. simpl. rewrite foldM_app.
    destruct (include_loop_resolves p ancestry before [] Hbefore) as [merged ->].
    assert (∀ acc,
              include_call fs p ancestry acc (VStr name)
              = Raise (CircularInclude ((ancestry ++ [p])
                         ++ resolve fs (join fs (parent fs p) name) :: w)))
      as Hcall.
    { intros acc. unfold include_call. simpl. by rewrite IH. }
    simpl. rewrite Hcall. simpl. by rewrite <- app_assoc.
Qed.

(** What is reached is a chain of includes, and it closes a cycle. *)
Lemma reaches_chain (ancestry : list string) (p : string) (w : list string) :
  reaches ancestry p w →
  include_chain (p :: w) ∧ closes_cycle (ancestry ++ p :: w).
Proof.
  induction 1
    as [ancestry p Hmet
       |ancestry p q w data before name after Hanc Hload Hnames Hbefore -> _ [IH1 IH2]].
  - split; [constructor|]. by exists ancestry, p.
  - split.
    + constructor; [|done].
      exists data, ((VStr <$> before) ++ VStr name :: after), name.
      split_and!; [done | done | | done].
      apply elem_of_app. right. apply list_elem_of_here.
    + by rewrite <- app_assoc in IH2.
Qed.

End cycle_facts.

(** [A] includes [B] and [B] includes [A]. *)
Definition cycle_fs : Relay.filesystem :=
  stacks_fs
    [("/app/stacks/a.yaml",
      YamlDoc (VDict [("include", VList [VStr "b.yaml"]); ("k", VStr "a")]));
     ("/app/stacks/b.yaml",
      YamlDoc (VDict [("include", VList [VStr "a.yaml"]); ("k", VStr "b")]))]
    ["a.yaml"; "b.yaml"].

(** [A] includes a document that is a list and then [B]; [B] includes
    [A]. *)
Definition blocked_cycle_fs : Relay.filesystem :=
  stacks_fs
    [("/app/stacks/a.yaml",
      YamlDoc (VDict [("include", VList [VStr "list.yaml"; VStr "b.yaml"]);
                      ("k", VStr "a")]));
     ("/app/stacks/b.yaml",
      YamlDoc (VDict [("include", VList [VStr "a.yaml"]); ("k", VStr "b")]));
     ("/app/stacks/list.yaml", YamlDoc (VList [VStr "item"]))]
    ["a.yaml"; "b.yaml"; "list.yaml"].

(** [A] includes a document that resolves and then [B]; [B] includes
    [A]. *)
Definition late_cycle_fs : Relay.filesystem :=
  stacks_fs
    [("/app/stacks/a.yaml",
      YamlDoc (VDict [("include", VList [VStr "base.yaml"; VStr "b.yaml"]);
                      ("k", VStr "a")]));
     ("/app/stacks/b.yaml",
      YamlDoc (VDict [("include", VList [VStr "a.yaml"]); ("k", VStr "b")]));
     ("/app/stacks/base.yaml", YamlDoc (VDict [("k", VStr "base")]))]
    ["a.yaml"; "b.yaml"; "base.yaml"].

(** C2, as the code has it.  Resolving a path that is in the ancestry
    raises the cycle error, whose message lists the ancestry and then the
    path.  No resolution runs out of the depth of one call per file and one
    more.  When a chain of includes from a path meets a document twice,
    resolving the path raises.  It raises the cycle error, and reports that
    chain, when the resolution gets to the end of the chain: when on each
    document of the chain the includes listed before the one the chain
    follows resolve.  In a directory where every file is a mapping that
    includes files by name, it raises the cycle error, whose report is a
    chain of includes from the path that ends in a document already on it.
    With [A] including [B] and [B] including [A], resolving [A] reports
    [A -> B -> A]. *)
Theorem include_cycle_detected :
  (∀ (fs : Relay.filesystem) (path : string) (ancestry : list string),
     path ∈ ancestry →
     Relay._load_stack_with_includes fs path ancestry
     = Raise (CircularInclude (ancestry ++ [path]))
     ∧ exn_class_of (CircularInclude (ancestry ++ [path])) = ValueError
     ∧ exn_message (CircularInclude (ancestry ++ [path]))
       = "Circular include detected: " +:+ str_join " -> " (ancestry ++ [path]))
  ∧ (∀ (fs : Relay.filesystem) (path : string) (ancestry : list string),
       Relay.load_stack_fuel fs (S (size (Relay.files fs))) path ancestry ≠ OutOfFuel)
  ∧ (∀ (fs : Relay.filesystem) (path : string) (w : list string),
       include_chain fs (path :: w) → ¬ NoDup (path :: w) →
       ∃ e, Relay._load_stack_with_includes fs path [] = Raise e)
  ∧ (∀ (fs : Relay.filesystem) (path : string) (w : list string),
       closed fs → is_Some (Relay.files fs !! path) →
       include_chain fs (path :: w) → ¬ NoDup (path :: w) →
       ∃ report,
         Relay._load_stack_with_includes fs path []
         = Raise (CircularInclude (path :: report))
         ∧ include_chain fs (path :: report)
         ∧ closes_cycle (path :: report))
  ∧ (∀ (fs : Relay.filesystem) (ancestry : list string) (path : string)
       (w : list string),
       reaches fs ancestry path w →
       Relay._load_stack_with_includes fs path ancestry
       = Raise (CircularInclude (ancestry ++ path :: w))
       ∧ exn_message (CircularInclude (ancestry ++ path :: w))
         = "Circular include detected: " +:+ str_join " -> " (ancestry ++ path :: w)
       ∧ include_chain fs (path :: w)
       ∧ closes_cycle (ancestry ++ path :: w))
  ∧ Relay._load_stack_with_includes cycle_fs "/app/stacks/a.yaml" []
    = Raise (CircularInclude
               ["/app/stacks/a.yaml"; "/app/stacks/b.yaml"; "/app/stacks/a.yaml"])
  ∧ exn_message
      (CircularInclude
         ["/app/stacks/a.yaml"; "/app/stacks/b.yaml"; "/app/stacks/a.yaml"])
    = "Circular include detected: /app/stacks/a.yaml -> /app/stacks/b.yaml -> /app/stacks/a.yaml".
Proof.
  split_and!.
  - intros fs path ancestry Hin. split_and!; [|done|done].
    by rewrite load_stack_unfold, decide_True.
  - intros fs path ancestry. apply load_stack_total.
  - intros fs path w Hw Hdup.
    destruct (Relay._load_stack_with_includes fs path []) as [cfg|e|] eqn:Hres.
    + destruct (load_stack_Ok_chain fs _ _ _ _ Hres w Hw) as [Hnd _]. by destruct Hdup.
    + by exists e.
    + by apply load_stack_total in Hres.
  - intros fs path w Hclosed Hpath Hw Hdup.
    destruct (load_stack_closed fs (S (size (Relay.files fs))) path [] Hclosed Hpath)
      as [[cfg Hres]|[Hres|(report & Hres & Hchain & Hcyc)]].
    + destruct (load_stack_Ok_chain fs _ _ _ _ Hres w Hw) as [Hnd _]. by destruct Hdup.
    + by apply load_stack_total in Hres.
    + by exists report.
  - intros fs ancestry path w Hreaches.
    destruct (reaches_chain fs _ _ _ Hreaches) as [Hchain Hcyc].
    split_and!; [by apply load_stack_reaches | done | done | done].
  - vm_compute. reflexivity.
  - vm_compute. reflexivity.
Qed.

Lemma include_cycle_detected_witness :
  (∃ report,
     Relay._load_stack_with_includes cycle_fs "/app/stacks/a.yaml" []
     = Raise (CircularInclude ("/app/stacks/a.yaml" :: report))
     ∧ include_chain cycle_fs ("/app/stacks/a.yaml" :: report)
     ∧ closes_cycle ("/app/stacks/a.yaml" :: report))
  ∧ reaches late_cycle_fs [] "/app/stacks/a.yaml"
      ["/app/stacks/b.yaml"; "/app/stacks/a.yaml"]
  ∧ Relay._load_stack_with_includes late_cycle_fs "/app/stacks/a.yaml" []
    = Raise (CircularInclude
               ["/app/stacks/a.yaml"; "/app/stacks/b.yaml"; "/app/stacks/a.yaml"]).
Proof.
  assert (reaches late_cycle_fs [] "/app/stacks/a.yaml"
            ["/app/stacks/b.yaml"; "/app/stacks/a.yaml"]) as Hreaches.
  { apply (reaches_include late_cycle_fs [] "/app/stacks/a.yaml" _ _
             (VDict [("include", VList [VStr "base.yaml"; VStr "b.yaml"]);
                     ("k", VStr "a")])
             ["base.yaml"] "b.yaml" []).
    - apply not_elem_of_nil.
    - vm_compute. reflexivity.
    - vm_compute. reflexivity.
    - constructor; [eexists; vm_compute; reflexivity | constructor].
    - vm_compute. reflexivity.
    - apply (reaches_include late_cycle_fs _ "/app/stacks/b.yaml" _ _
               (VDict [("include", VList [VStr "a.yaml"]); ("k", VStr "b")])
               [] "a.yaml" []).
      + apply (bool_decide_unpack _). vm_compute. exact I.
      + vm_compute. reflexivity.
      + vm_compute. reflexivity.
      + constructor.
      + vm_compute. reflexivity.
      + apply reaches_met. apply (bool_decide_unpack _). vm_compute. exact I. }
  split_and!.
  - refine (proj1 (proj2 (proj2 (proj2 include_cycle_detected)))
              cycle_fs "/app/stacks/a.yaml"
              ["/app/stacks/b.yaml"; "/app/stacks/a.yaml"] _ _ _ _).
    + apply (bool_decide_unpack _). vm_compute. exact I.
    + apply (bool_decide_unpack _). vm_compute. exact I.
    + constructor.
      * eexists _, _, "b.yaml". split_and!;
          [vm_compute; reflexivity | vm_compute; reflexivity
          | apply list_elem_of_here | vm_compute; reflexivity].
      * constructor; [|constructor].
        eexists _, _, "a.yaml". split_and!;
          [vm_compute; reflexivity | vm_compute; reflexivity
          | apply list_elem_of_here | vm_compute; reflexivity].
    + intros Hnd. apply NoDup_cons in Hnd as [Hnotin _]. apply Hnotin.
      apply list_elem_of_further, list_elem_of_here.
  - exact Hreaches.
  - exact (proj1 (proj1 (proj2 (proj2 (proj2 (proj2 include_cycle_detected))))
                    late_cycle_fs [] "/app/stacks/a.yaml"
                    ["/app/stacks/b.yaml"; "/app/stacks/a.yaml"] Hreaches)).
Defined.

(** C2, as stated, fails where an include listed before the one that
    leads back raises: [A] includes a list document and then [B], [B]
    includes [A], and resolving [A] raises the [AttributeError] of the list
    document, not the cycle error. *)
Lemma earlier_include_hides_cycle :
  include_chain blocked_cycle_fs
    ["/app/stacks/a.yaml"; "/app/stacks/b.yaml"; "/app/stacks/a.yaml"]
  ∧ ¬ NoDup ["/app/stacks/a.yaml"; "/app/stacks/b.yaml"; "/app/stacks/a.yaml"]
  ∧ Relay._load_stack_with_includes blocked_cycle_fs "/app/stacks/a.yaml" []
    = Raise (PyError AttributeError "'list' object has no attribute 'get'")
  ∧ ∀ report,
      Relay._load_stack_with_includes blocked_cycle_fs "/app/stacks/a.yaml" []
      ≠ Raise (CircularInclude report).
Proof.
  assert (Relay._load_stack_with_includes blocked_cycle_fs "/app/stacks/a.yaml" []
          = Raise (PyError AttributeError "'list' object has no attribute 'get'"))
    as Hraises by (vm_compute; reflexivity).
  split_and!.
  - constructor.
    + eexists _, _, "b.yaml". split_and!;
        [vm_compute; reflexivity | vm_compute; reflexivity
        | apply list_elem_of_further, list_elem_of_here | vm_compute; reflexivity].
    + constructor; [|constructor].
      eexists _, _, "a.yaml". split_and!;
        [vm_compute; reflexivity | vm_compute; reflexivity
        | apply list_elem_of_here | vm_compute; reflexivity].
  - intros Hnd. apply NoDup_cons in Hnd as [Hnotin _]. apply Hnotin.
    apply list_elem_of_further, list_elem_of_here.
  - exact Hraises.
  - intros report. rewrite Hraises. discriminate.
Qed.

(** ** Documents that are not mappings *)

(** A stack document whose content is the YAML list [- item]. *)
Definition list_doc_fs : Relay.filesystem :=
  stacks_fs [("/app/stacks/list.yaml", YamlDoc (VList [VStr "item"]))]
            ["list.yaml"].

(** A stack that includes the document above. *)
Definition includes_list_fs : Relay.filesystem :=
  stacks_fs
    [("/app/stacks/main.yaml",
      YamlDoc (VDict [("include", VList [VStr "list.yaml"]); ("k", VInt 1)]));
     ("/app/stacks/list.yaml", YamlDoc (VList [VStr "item"]))]
    ["list.yaml"; "main.yaml"].

(** C4 fails on the code.  The resolver's own [_load_yaml] does not look
    at the shape of what it loads: a document that is a non-empty list or
    another true value that is no mapping makes the resolver raise the
    interpreter's [AttributeError] at [data.get], directly or through an
    include, not the error [codex_utils.load_yaml] raises for such a file;
    and a document that is an empty list resolves, to the empty mapping. *)
Theorem non_mapping_document_error :
  (∀ (fs : Relay.filesystem) (path : string) (ancestry : list string)
     (content : value),
     Relay.files fs !! path = Some (YamlDoc content) →
     truthy content = true → is_dict content = false → path ∉ ancestry →
     Relay._load_stack_with_includes fs path ancestry
     = Raise (PyError AttributeError
                ("'" +:+ type_name content +:+ "' object has no attribute 'get'"))
     ∧ Utils.load_yaml (Relay.files fs) path false = Raise (YamlNotMapping path))
  ∧ Relay._load_stack_with_includes list_doc_fs "/app/stacks/list.yaml" []
    = Raise (PyError AttributeError "'list' object has no attribute 'get'")
  ∧ Relay._load_stack_with_includes includes_list_fs "/app/stacks/main.yaml" []
    = Raise (PyError AttributeError "'list' object has no attribute 'get'")
  ∧ Utils.load_yaml (Relay.files list_doc_fs) "/app/stacks/list.yaml" false
    = Raise (YamlNotMapping "/app/stacks/list.yaml")
  ∧ Relay._load_stack_with_includes
      (stacks_fs [("/app/stacks/empty.yaml", YamlDoc (VList []))] ["empty.yaml"])
      "/app/stacks/empty.yaml" []
    = Ok [].
Proof.
  split_and!; try (vm_compute; reflexivity).
  intros fs path ancestry content Hfile Htrue Hshape Hanc. split.
  - rewrite load_stack_unfold, decide_False by done.
    unfold Relay._load_yaml, py_or. rewrite Hfile, Htrue. simpl.
    by destruct content.
  - unfold Utils.load_yaml, py_or. by rewrite Hfile, Htrue, Hshape.
Qed.

Lemma non_mapping_document_error_witness :
  Relay._load_stack_with_includes list_doc_fs "/app/stacks/list.yaml" []
  = Raise (PyError AttributeError "'list' object has no attribute 'get'")
  ∧ Utils.load_yaml (Relay.files list_doc_fs) "/app/stacks/list.yaml" false
    = Raise (YamlNotMapping "/app/stacks/list.yaml").
Proof.
  refine (proj1 non_mapping_document_error list_doc_fs "/app/stacks/list.yaml" []
            (VList [VStr "item"]) _ _ _ _).
  - vm_compute. reflexivity.
  - reflexivity.
  - reflexivity.
  - apply not_elem_of_nil.
Defined.

(** ** The size of the payload *)

(** C3. With a positive ceiling and a payload whose UTF-8 form is longer,
    [_parse_payload] raises the payload limit error and has not called
    [json.loads].  A payload within the ceiling is parsed, once. *)
Theorem oversized_payload_rejected :
  (∀ (json_loads : string → result value) (payload_str : string) (max_bytes : Z),
     (0 < max_bytes)%Z →
     (max_bytes < Z.of_nat (String.length payload_str))%Z →
     Relay._parse_payload json_loads payload_str (Some max_bytes)
     = ([], Raise (PayloadLimit max_bytes))
     ∧ exn_class_of (PayloadLimit max_bytes) = ValueError
     ∧ exn_message (PayloadLimit max_bytes)
       = "Payload exceeds relay policy limit of " +:+ pretty max_bytes +:+ " bytes.")
  ∧ (∀ (json_loads : string → result value) (payload_str : string) (max_bytes : Z),
       (Z.of_nat (String.length payload_str) ≤ max_bytes)%Z →
       payload_str ≠ "" →
       (Relay._parse_payload json_loads payload_str (Some max_bytes)).1
       = [payload_str]).
Proof.
  split.
  - intros json_loads payload_str max_bytes Hpos Hlong. split_and!; [|done|done].
    unfold Relay._parse_payload.
    rewrite (proj2 (Z.eqb_neq max_bytes 0)) by lia.
    by rewrite bool_decide_eq_true_2.
  - intros json_loads payload_str max_bytes Hshort Hne. unfold Relay._parse_payload.
    rewrite bool_decide_eq_false_2 by lia. rewrite andb_false_r.
    destruct (String.eqb_spec payload_str ""); done.
Qed.

(** A payload of three characters, five bytes in UTF-8, against a ceiling
    of four bytes; the parser given would accept anything. *)
Lemma oversized_payload_rejected_witness :
  Relay._parse_payload (λ _, Ok (VDict [])) "éè!" (Some 4%Z)
  = ([], Raise (PayloadLimit 4)).
Proof.
  refine (proj1 (proj1 oversized_payload_rejected (λ _, Ok (VDict [])) "éè!" 4%Z _ _)).
  - lia.
  - vm_compute. reflexivity.
Defined.

(** ** The advisory *)

Section advisory_facts.
Import Executor.
Variable py_str : value → string.

(** The risk label when the payload gives none. *)
Definition default_risk (blockers : list string) : value :=
  VStr (match blockers with [] => "low" | _ => "medium" end).

Lemma advisory_fields (policies payload : dict) (adv : Advisory) :
  _generate_advisory py_str policies payload = Ok adv →
  risk_level adv
  = py_or (py_get payload "risk_level")
          (default_risk (_coerce_list py_str (py_get payload "blockers")))
  ∧ confidence adv
    = match _coerce_list py_str (py_get payload "blockers") with
      | [] => "high"
      | _ => "balanced"
      end.
Proof.
  unfold _generate_advisory. intros H.
  apply bind_inv_Ok in H as (parts & _ & H).
  apply bind_inv_Ok in H as (defaults & _ & H).
  by injection H as <-.
Qed.

Lemma str_parts_Ok (index : nat) (parts : list value) :
  Forall (λ v, ∃ s, v = VStr s) parts → ∃ ss, str_parts index parts = Ok ss.
Proof.
  intros Hparts. revert index.
  induction Hparts as [|v parts [s ->] _ IH]; intros index; simpl; [by eexists|].
  destruct (IH (S index)) as [ss ->]. simpl. by eexists.
Qed.

Lemma advisory_generated (policies payload : dict) (prefix context : string)
    (defaults : list value) :
  py_get_default policies "summary_prefix" (VStr "Advisor Insight") = VStr prefix →
  py_or (py_get payload "context") (VStr "No additional context supplied.")
  = VStr context →
  py_iter (py_get_default policies "default_actions" (VList [])) = Ok defaults →
  ∃ adv, _generate_advisory py_str policies payload = Ok adv.
Proof.
  intros Hprefix Hcontext Hdefaults. unfold _generate_advisory.
  rewrite Hprefix, Hcontext, Hdefaults.
  match goal with |- context [str_parts 0 ?l] => destruct (str_parts_Ok 0 l) as [ss ->] end.
  { repeat constructor; eauto. case_match; repeat constructor; eauto. }
  simpl. by eexists.
Qed.

End advisory_facts.

(** C5, as the code has it.  Every advisory generated has as risk level
    the payload's [risk_level] when that field is present and true in
    Python's sense (not null, false, zero or empty); otherwise [low] with
    no blockers and [medium] with some.  Its confidence is [balanced] with
    some blocker and [high] with none.  An advisory is generated whenever
    the summary prefix and the context are strings and the default actions
    can be listed. *)
Theorem advisory_risk_and_confidence (py_str : value → string)
    (policies payload : dict) :
  let blockers := Executor._coerce_list py_str (py_get payload "blockers") in
  (∀ adv, Executor._generate_advisory py_str policies payload = Ok adv →
     Executor.risk_level adv
     = match dict_get payload "risk_level" with
       | Some level =>
           if truthy level then level
           else VStr (match blockers with [] => "low" | _ => "medium" end)
       | None => VStr (match blockers with [] => "low" | _ => "medium" end)
       end
     ∧ Executor.confidence adv
       = match blockers with [] => "high" | _ => "balanced" end)
  ∧ (∀ prefix context defaults,
       py_get_default policies "summary_prefix" (VStr "Advisor Insight")
       = VStr prefix →
       py_or (py_get payload "context") (VStr "No additional context supplied.")
       = VStr context →
       py_iter (py_get_default policies "default_actions" (VList [])) = Ok defaults →
       ∃ adv, Executor._generate_advisory py_str policies payload = Ok adv).
Proof.
  intros blockers. split.
  - intros adv Hadv. destruct (advisory_fields py_str _ _ _ Hadv) as [-> ->].
    split; [|done]. unfold py_or, py_get, default_risk. fold blockers.
    by destruct (dict_get payload "risk_level").
  - intros prefix context defaults. apply advisory_generated.
Qed.

(** [str()] on strings; the examples convert nothing else. *)
Definition str_of (v : value) : string :=
  match v with VStr s => s | _ => type_name v end.

(** The payload of the end-to-end example, with the default actions
    [review backlog]. *)
Lemma advisory_risk_and_confidence_witness :
  ∃ adv,
    Executor._generate_advisory str_of
      [("default_actions", VList [VStr "review backlog"])]
      [("objectives", VList [VStr "ship v1"]); ("blockers", VList [])]
    = Ok adv
    ∧ Executor.risk_level adv = VStr "low"
    ∧ Executor.confidence adv = "high".
Proof.
  destruct (proj2 (advisory_risk_and_confidence str_of
              [("default_actions", VList [VStr "review backlog"])]
              [("objectives", VList [VStr "ship v1"]); ("blockers", VList [])])
              "Advisor Insight" "No additional context supplied."
              [VStr "review backlog"] eq_refl eq_refl eq_refl) as [adv Hadv].
  exists adv. split; [exact Hadv|].
  exact (proj1 (advisory_risk_and_confidence str_of _ _) adv Hadv).
Defined.

(** C5, as stated, fails for a [risk_level] that is present and not true:
    with the empty string there, the advisory's risk level is [low]. *)
Lemma falsy_risk_level_replaced :
  dict_get [("risk_level", VStr "")] "risk_level" = Some (VStr "")
  ∧ ∃ adv,
      Executor._generate_advisory str_of [] [("risk_level", VStr "")] = Ok adv
      ∧ Executor.risk_level adv = VStr "low"
      ∧ Executor.risk_level adv ≠ VStr "".
Proof.
  split; [reflexivity|]. eexists. split; [vm_compute; reflexivity|].
  split; [reflexivity | discriminate].
Qed.

(** ** The stack registry *)

Section discover_facts.
Import Relay.

(** The same files, with a directory listing in another order. *)
Definition with_listing (fs : filesystem) (listing : list string) : filesystem :=
  {| files := files fs;
     BASE_DIR := BASE_DIR fs;
     parent := parent fs;
     join := join fs;
     resolve := resolve fs;
     is_absolute := is_absolute fs;
     path_exists := path_exists fs;
     glob_yaml := λ _, listing |}.

(** One turn of the loop of [_discover_stack]: the stack found, or
    nothing and the loop goes on. *)
Definition candidate_outcome (fs : filesystem) (persona role stacks_dir : string)
    (candidate : string) : result (option (dict * string)) :=
  let path := resolve fs (join fs stacks_dir candidate) in
  stack ← _load_stack_with_includes fs path [];
  routing ← Ok (py_or (py_get stack "routing") (VDict []));
  p ← py_attr_get routing "persona";
  if py_eq_str p persona
  then r ← py_attr_get routing "role";
       if py_eq_str r role then Ok (Some (stack, path)) else Ok None
  else Ok None.

Lemma discover_loop_cons (fs : filesystem) (persona role stacks_dir : string)
    (candidate : string) (rest : list string) :
  discover_loop fs persona role stacks_dir (candidate :: rest) =
    (found ← candidate_outcome fs persona role stacks_dir candidate;
     match found with
     | Some stack => Ok stack
     | None => discover_loop fs persona role stacks_dir rest
     end).
Proof.
  simpl. unfold candidate_outcome.
  destruct (_load_stack_with_includes fs _ []) as [stack|e|]; simpl; try done.
  destruct (py_attr_get _ "persona") as [p|e|]; simpl; try done.
  destruct (py_eq_str p persona); simpl; try done.
  destruct (py_attr_get _ "role") as [r|e|]; simpl; try done.
  by destruct (py_eq_str r role).
Qed.

Lemma discover_loop_first (fs : filesystem) (persona role stacks_dir : string)
    (before after : list string) (m : string) (found : dict * string) :
  Forall (λ n, candidate_outcome fs persona role stacks_dir n = Ok None) before →
  candidate_outcome fs persona role stacks_dir m = Ok (Some found) →
  discover_loop fs persona role stacks_dir (before ++ m :: after) = Ok found.
Proof.
  intros Hbefore Hm. induction Hbefore as [|n before Hn _ IH].
  - simpl app. by rewrite discover_loop_cons, Hm.
  - simpl app. by rewrite discover_loop_cons, Hn.
Qed.

(** The loop ends at the first candidate whose turn raises. *)
Lemma discover_loop_raises (fs : filesystem) (persona role stacks_dir : string)
    (before after : list string) (m : string) (e : exn) :
  Forall (λ n, candidate_outcome fs persona role stacks_dir n = Ok None) before →
  candidate_outcome fs persona role stacks_dir m = Raise e →
  discover_loop fs persona role stacks_dir (before ++ m :: after) = Raise e.
Proof.
  intros Hbefore Hm. induction Hbefore as [|n before Hn _ IH].
  - simpl app. by rewrite discover_loop_cons, Hm.
  - simpl app. by rewrite discover_loop_cons, Hn.
Qed.

(** The sorted candidates do not depend on the order of the listing. *)
Lemma sorted_names_perm (l1 l2 : list string) :
  l1 ≡ₚ l2 → sorted_names l1 = sorted_names l2.
Proof.
  intros Hperm. unfold sorted_names.
  apply (Sorted_unique String.le); [apply Sorted_merge_sort, _ .. |].
  by rewrite !merge_sort_Permutation.
Qed.

(** The candidates sorted before the first [m] are other names, not
    above [m]. *)
Lemma sorted_names_split (names : list string) (m : string) :
  m ∈ names →
  ∃ before after,
    sorted_names names = before ++ m :: after
    ∧ Forall (λ n, n ∈ names ∧ (n ≤ m)%string ∧ n ≠ m) before.
Proof.
  intros Hm.
  assert (m ∈ sorted_names names) as Hsorted.
  { unfold sorted_names. by rewrite merge_sort_Permutation. }
  apply list_elem_of_split_l in Hsorted as (before & after & Heq & Hfirst).
  exists before, after. split; [done|].
  apply Forall_forall. intros n Hn. split_and!.
  - rewrite <- (merge_sort_Permutation String.le names).
    fold (sorted_names names). rewrite Heq. apply elem_of_app. by left.
  - apply (StronglySorted_app_1_elem_of String.le before (m :: after)).
    + rewrite <- Heq. apply StronglySorted_merge_sort; apply _.
    + done.
    + apply list_elem_of_here.
  - intros ->. done.
Qed.

Lemma load_stack_fuel_listing (fs : filesystem) (listing : list string) (n : nat)
    (path : string) (ancestry : list string) :
  load_stack_fuel (with_listing fs listing) n path ancestry
  = load_stack_fuel fs n path ancestry.
Proof.
  revert path ancestry. induction n as [|n IH]; intros path ancestry; [done|].
  rewrite !load_stack_fuel_S. case_decide; [done|].
  change (_load_yaml (with_listing fs listing) path) with (_load_yaml fs path).
  destruct (_load_yaml fs path) as [data|e|]; simpl; try done.
  destruct (py_attr_get data "include") as [inc|e|]; simpl; try done.
  destruct (py_iter _) as [includes|e|]; simpl; try done.
  f_equal. apply foldM_ext. intros b a _. unfold include_step.
  change (include_path (with_listing fs listing) path a) with (include_path fs path a).
  destruct (include_path fs path a) as [target|e|]; simpl; try done.
  by rewrite IH.
Qed.

Lemma candidate_outcome_listing (fs : filesystem) (listing : list string)
    (persona role stacks_dir candidate : string) :
  candidate_outcome (with_listing fs listing) persona role stacks_dir candidate
  = candidate_outcome fs persona role stacks_dir candidate.
Proof.
  unfold candidate_outcome, _load_stack_with_includes.
  by rewrite load_stack_fuel_listing.
Qed.

Lemma discover_loop_listing (fs : filesystem) (listing : list string)
    (persona role stacks_dir : string) (candidates : list string) :
  discover_loop (with_listing fs listing) persona role stacks_dir candidates
  = discover_loop fs persona role stacks_dir candidates.
Proof.
  induction candidates as [|c rest IH]; [done|].
  by rewrite !discover_loop_cons, candidate_outcome_listing, IH.
Qed.

(** A candidate is the stack found when it resolves and the routing of
    what it resolves to names the persona and the role. *)
Lemma candidate_outcome_match (fs : filesystem) (persona role stacks_dir : string)
    (candidate : string) (stack routing : dict) :
  _load_stack_with_includes fs (resolve fs (join fs stacks_dir candidate)) []
  = Ok stack →
  dict_get stack "routing" = Some (VDict routing) →
  dict_get routing "persona" = Some (VStr persona) →
  dict_get routing "role" = Some (VStr role) →
  candidate_outcome fs persona role stacks_dir candidate
  = Ok (Some (stack, resolve fs (join fs stacks_dir candidate))).
Proof.
  intros Hstack Hrouting Hpersona Hrole. unfold candidate_outcome.
  assert (py_or (py_get stack "routing") (VDict []) = VDict routing) as Hor.
  { unfold py_or, py_get. rewrite Hrouting. simpl. by destruct routing. }
  rewrite Hstack. simpl. rewrite Hor. simpl.
  unfold py_get. rewrite Hpersona, Hrole. simpl.
  by rewrite !bool_decide_eq_true_2.
Qed.

End discover_facts.

Definition routed (persona role label : string) : yaml_file :=
  YamlDoc (VDict [("routing", VDict [("persona", VStr persona); ("role", VStr role)]);
                  ("agents", VList [VDict [("name", VStr label)]])]).

(** Three stacks, two of them for persona [p] and role [r]; the directory
    lists them last name first. *)
Definition registry_fs : Relay.filesystem :=
  stacks_fs
    [("/app/stacks/a.yaml", routed "q" "r" "first");
     ("/app/stacks/b.yaml", routed "p" "r" "second");
     ("/app/stacks/c.yaml", routed "p" "r" "third")]
    ["c.yaml"; "b.yaml"; "a.yaml"].

(** Three stacks, two of them for persona [p] and role [r], after a
    file that is no YAML. *)
Definition broken_first_fs : Relay.filesystem :=
  stacks_fs
    [("/app/stacks/a.yaml", YamlSyntaxError);
     ("/app/stacks/b.yaml", routed "p" "r" "second");
     ("/app/stacks/c.yaml", routed "p" "r" "third")]
    ["c.yaml"; "b.yaml"; "a.yaml"].

(** C7, as the code has it.  Without an explicit path the lookup gives
    the same result for every order in which the directory may be listed.
    It returns the matching stack whose file name is least, provided every
    candidate with a lesser name resolves and has a mapping, or nothing, as
    routing.  A candidate matches when it resolves and the routing of the
    result names the persona and the role.  When the turn of a candidate
    raises and no candidate with a lesser name matches or raises, the
    lookup raises that exception, whatever matches after it. *)
Theorem discover_earliest_match :
  (∀ (fs : Relay.filesystem) (persona role stacks_dir : string)
     (listing1 listing2 : list string),
     listing1 ≡ₚ listing2 →
     Relay._discover_stack (with_listing fs listing1) persona role stacks_dir None
     = Relay._discover_stack (with_listing fs listing2) persona role stacks_dir None)
  ∧ (∀ (fs : Relay.filesystem) (persona role stacks_dir m : string)
       (found : dict * string),
       m ∈ Relay.glob_yaml fs stacks_dir →
       candidate_outcome fs persona role stacks_dir m = Ok (Some found) →
       (∀ n, n ∈ Relay.glob_yaml fs stacks_dir → (n ≤ m)%string →
             ∃ o, candidate_outcome fs persona role stacks_dir n = Ok o) →
       (∀ n other, n ∈ Relay.glob_yaml fs stacks_dir →
             candidate_outcome fs persona role stacks_dir n = Ok (Some other) →
             (m ≤ n)%string) →
       Relay._discover_stack fs persona role stacks_dir None = Ok found)
  ∧ (∀ (fs : Relay.filesystem) (persona role stacks_dir candidate : string)
       (stack routing : dict),
       Relay._load_stack_with_includes fs
         (Relay.resolve fs (Relay.join fs stacks_dir candidate)) [] = Ok stack →
       dict_get stack "routing" = Some (VDict routing) →
       dict_get routing "persona" = Some (VStr persona) →
       dict_get routing "role" = Some (VStr role) →
       candidate_outcome fs persona role stacks_dir candidate
       = Ok (Some (stack, Relay.resolve fs (Relay.join fs stacks_dir candidate))))
  ∧ (∃ stack,
       Relay._discover_stack registry_fs "p" "r" "/app/stacks" None
       = Ok (stack, "/app/stacks/b.yaml"))
  ∧ (∀ (fs : Relay.filesystem) (persona role stacks_dir m : string) (e : exn),
       m ∈ Relay.glob_yaml fs stacks_dir →
       candidate_outcome fs persona role stacks_dir m = Raise e →
       (∀ n, n ∈ Relay.glob_yaml fs stacks_dir → (n ≤ m)%string → n ≠ m →
             candidate_outcome fs persona role stacks_dir n = Ok None) →
       Relay._discover_stack fs persona role stacks_dir None = Raise e).
Proof.
  split_and!.
  - intros fs persona role stacks_dir listing1 listing2 Hperm.
    unfold Relay._discover_stack. simpl.
    by rewrite !discover_loop_listing, (sorted_names_perm _ _ Hperm).
  - intros fs persona role stacks_dir m found Hm Hfound Hok Hleast.
    unfold Relay._discover_stack.
    destruct (sorted_names_split _ _ Hm) as (before & after & -> & Hbefore).
    apply discover_loop_first; [|done].
    eapply Forall_impl; [exact Hbefore|]. intros n (Hn & Hle & Hne). simpl.
    destruct (Hok n Hn Hle) as [[other|] Ho]; [|done].
    destruct Hne. apply (anti_symm String.le); [done|]. by apply (Hleast n other).
  - apply candidate_outcome_match.
  - eexists. vm_compute. reflexivity.
  - intros fs persona role stacks_dir m e Hm Hraises Hnone.
    unfold Relay._discover_stack.
    destruct (sorted_names_split _ _ Hm) as (before & after & -> & Hbefore).
    apply discover_loop_raises; [|done].
    eapply Forall_impl; [exact Hbefore|]. intros n (Hn & Hle & Hne). simpl.
    by apply Hnone.
Qed.

Lemma discover_earliest_match_witness :
  (∃ stack,
     Relay._discover_stack registry_fs "p" "r" "/app/stacks" None
     = Ok (stack, "/app/stacks/b.yaml"))
  ∧ Relay._discover_stack broken_first_fs "p" "r" "/app/stacks" None
    = Raise (PyError YAMLError "/app/stacks/a.yaml").
Proof.
  split.
  - eexists.
    refine (proj1 (proj2 discover_earliest_match) registry_fs "p" "r" "/app/stacks"
              "b.yaml" _ _ _ _ _).
    + apply list_elem_of_further, list_elem_of_here.
    + vm_compute. reflexivity.
    + intros n Hn _.
      repeat (apply elem_of_cons in Hn as [->|Hn]);
        [eexists; vm_compute; reflexivity ..|].
      by apply elem_of_nil in Hn.
    + intros n other Hn Hmatch.
      repeat (apply elem_of_cons in Hn as [->|Hn]).
      * vm_compute. exact I.
      * vm_compute. exact I.
      * vm_compute in Hmatch. discriminate.
      * by apply elem_of_nil in Hn.
  - refine (proj2 (proj2 (proj2 (proj2 discover_earliest_match)))
              broken_first_fs "p" "r" "/app/stacks" "a.yaml" _ _ _ _).
    + do 2 apply list_elem_of_further. apply list_elem_of_here.
    + vm_compute. reflexivity.
    + intros n Hn Hle Hne.
      repeat (apply elem_of_cons in Hn as [->|Hn]).
      * vm_compute in Hle. destruct Hle.
      * vm_compute in Hle. destruct Hle.
      * by destruct Hne.
      * by apply elem_of_nil in Hn.
Defined.

(** C7, as stated, fails where a candidate sorted before the matching
    ones raises: [b.yaml] and [c.yaml] both match, and the lookup raises
    the error of [a.yaml], which is no YAML, not returning [b.yaml]. *)
Lemma broken_candidate_hides_match :
  (∀ path, path = "/app/stacks/b.yaml" ∨ path = "/app/stacks/c.yaml" →
     ∃ stack routing,
       Relay._load_stack_with_includes broken_first_fs path [] = Ok stack
       ∧ dict_get stack "routing" = Some (VDict routing)
       ∧ dict_get routing "persona" = Some (VStr "p")
       ∧ dict_get routing "role" = Some (VStr "r"))
  ∧ Relay._discover_stack broken_first_fs "p" "r" "/app/stacks" None
    = Raise (PyError YAMLError "/app/stacks/a.yaml")
  ∧ ∀ found,
      Relay._discover_stack broken_first_fs "p" "r" "/app/stacks" None ≠ Ok found.
Proof.
  assert (Relay._discover_stack broken_first_fs "p" "r" "/app/stacks" None
          = Raise (PyError YAMLError "/app/stacks/a.yaml")) as Hraises
    by (vm_compute; reflexivity).
  split_and!.
  - intros path [->| ->]; eexists _, _; split_and!; vm_compute; reflexivity.
  - exact Hraises.
  - intros found. rewrite Hraises. discriminate.
Qed.

(** ** The digest *)

Lemma mapM_inv {A B : Type} (f : A → result B) (l : list A) (rs : list B) :
  mapM f l = Ok rs → Forall2 (λ x r, f x = Ok r) l rs.
Proof.
  revert rs. induction l as [|x l IH]; intros rs H; simpl in H.
  { injection H as <-. constructor. }
  apply bind_inv_Ok in H as (y & Hy & H).
  apply bind_inv_Ok in H as (ys & Hys & H).
  injection H as <-. constructor; auto.
Qed.

Section digest_facts.
Import Digest.

Global Instance path_le_total : Total path_le.
Proof.
  intros p. unfold path_le. induction p as [|a p IH]; intros [|b q]; simpl; auto.
  destruct (decide (a = b)) as [->|Hab].
  - rewrite decide_True by done. apply IH.
  - rewrite decide_False by congruence.
    destruct (total String.le a b); [left|right]; by apply bool_decide_pack.
Qed.

Global Instance path_le_trans : Transitive path_le.
Proof.
  intros p. unfold path_le.
  induction p as [|a p IH]; intros [|b q] [|c r]; simpl; try done.
  destruct (decide (a = b)) as [->|Hab]; destruct (decide (b = c)) as [->|Hbc].
  - apply IH.
  - by intros _ ?.
  - rewrite decide_False by done. by intros ? _.
  - intros Hle1%bool_decide_unpack Hle2%bool_decide_unpack.
    destruct (decide (a = c)) as [->|Hac].
    + destruct Hab. by apply (anti_symm String.le).
    + apply bool_decide_pack. by trans b.
Qed.

Global Instance path_ge_total : Total path_ge.
Proof. intros p q. unfold path_ge. destruct (total path_le p q); auto. Qed.

Global Instance path_ge_trans : Transitive path_ge.
Proof. intros p q r Hpq Hqr. unfold path_ge in *. by trans q. Qed.

(** Directly below [runs], the order of paths is the order of names. *)
Lemma path_le_names (a b : string) : path_le [a] [b] ↔ (a ≤ b)%string.
Proof.
  unfold path_le. simpl. destruct (decide (a = b)) as [->|Hab].
  - split; [done|]. intros _. exact I.
  - split; [apply bool_decide_unpack | apply bool_decide_pack].
Qed.

Lemma sorted_reverse_sorted (run_dirs : list (list string)) :
  StronglySorted path_ge (sorted_reverse run_dirs).
Proof. apply StronglySorted_merge_sort; apply _. Qed.

Lemma sorted_reverse_perm (run_dirs : list (list string)) :
  sorted_reverse run_dirs ≡ₚ run_dirs.
Proof. apply merge_sort_Permutation. Qed.

(** A run directory whose artifacts, where present, decode: the report
    and the evaluation to objects, the criteria to something with a
    length. *)
Definition run_store_ok (runs_root : node) (run_path : list string) : Prop :=
  ∃ relay evaluation logger count,
    _load_json runs_root (run_path ++ ["relay.json"]) = Ok (VDict relay)
    ∧ _load_json runs_root (run_path ++ ["evaluation.json"]) = Ok (VDict evaluation)
    ∧ _load_json runs_root (run_path ++ ["logger.json"]) = Ok logger
    ∧ py_len (py_get_default evaluation "criteria" (VList [])) = Ok count.

Lemma collect_one_Ok (runs_root : node) (run_path : list string) :
  run_store_ok runs_root run_path →
  ∃ record, collect_one runs_root run_path = Ok record ∧ run_dir record = run_path.
Proof.
  intros (relay & evaluation & logger & count & Hrelay & Heval & Hlogger & Hcount).
  unfold collect_one. rewrite Hrelay, Heval, Hlogger. simpl. rewrite Hcount. simpl.
  by eexists.
Qed.

Lemma collect_one_inv (runs_root : node) (run_path : list string)
    (record : DigestRecord) :
  collect_one runs_root run_path = Ok record →
  ∃ relay evaluation logger count,
    _load_json runs_root (run_path ++ ["relay.json"]) = Ok (VDict relay)
    ∧ _load_json runs_root (run_path ++ ["evaluation.json"]) = Ok (VDict evaluation)
    ∧ _load_json runs_root (run_path ++ ["logger.json"]) = Ok logger
    ∧ py_len (py_get_default evaluation "criteria" (VList [])) = Ok count
    ∧ record = {| run_dir := run_path;
                  timestamp := py_get relay "timestamp";
                  persona := py_get relay "persona";
                  role := py_get relay "role";
                  pipeline := py_get relay "pipeline";
                  outputs := py_get_default relay "outputs" (VDict []);
                  evaluation_schema := py_get evaluation "schema_version";
                  evaluation_criteria := count;
                  logger_present := truthy logger |}.
Proof.
  unfold collect_one. intros H.
  apply bind_inv_Ok in H as (relay & Hrelay & H).
  apply bind_inv_Ok in H as (evaluation & Heval & H).
  apply bind_inv_Ok in H as (logger & Hlogger & H).
  destruct relay as [| | | | | |relay]; try done.
  destruct evaluation as [| | | | | |evaluation]; try done.
  simpl in H. apply bind_inv_Ok in H as (count & Hcount & H).
  injection H as <-. by exists relay, evaluation, logger, count.
Qed.

Lemma collect_runs_Ok (vault : node) (entries : list (string * node))
    (limit : option Z) :
  child vault "runs" = Some (Dir entries) →
  Forall (run_store_ok (Dir entries)) (selected entries limit) →
  ∃ records,
    _collect_runs vault limit = Ok records
    ∧ map run_dir records = selected entries limit.
Proof.
  intros Hruns Hok. unfold _collect_runs. rewrite Hruns.
  induction Hok as [|p l Hp _ (records & Hrecords & Hdirs)]; simpl.
  { by exists []. }
  destruct (collect_one_Ok _ _ Hp) as (record & -> & Hdir). simpl.
  rewrite Hrecords. simpl. exists (record :: records). simpl. by rewrite Hdir, Hdirs.
Qed.

(** With a limit that is not negative the run directories read are the
    first [limit] of the sorted ones: each is at least every one left
    out. *)
Lemma selected_greatest (entries : list (string * node)) (limit : Z) :
  (0 ≤ limit)%Z →
  selected entries (Some limit)
  = take (Z.to_nat limit) (sorted_reverse (candidates entries))
  ∧ ∀ kept left_out,
      kept ∈ selected entries (Some limit) →
      left_out ∈ drop (Z.to_nat limit) (sorted_reverse (candidates entries)) →
      path_le left_out kept.
Proof.
  intros Hlimit. unfold selected, slice_to. rewrite decide_True by done.
  split; [done|]. intros kept left_out Hkept Hleft.
  pose proof (sorted_reverse_sorted (candidates entries)) as Hsorted.
  rewrite <- (take_drop (Z.to_nat limit)) in Hsorted.
  apply (StronglySorted_app_1_elem_of path_ge _ _ kept left_out Hsorted Hkept Hleft).
Qed.

End digest_facts.

(** A run directory as the relay and the logger leave it. *)
Definition run_store (persona : string) (artifacts : list (string * Digest.node))
    : Digest.node :=
  Digest.Dir
    (("relay.json",
      Digest.File (JsonDoc (VDict [("timestamp", VStr "2024-01-01T00:00:00+00:00");
                                   ("persona", VStr persona);
                                   ("role", VStr "advisor")])))
     :: ("outputs", Digest.Dir []) :: artifacts).

Definition logged : list (string * Digest.node) :=
  [("logger.json", Digest.File (JsonDoc (VDict [("persona", VStr "p")])))].

(** Ten run directories directly below [runs], listed in no order. *)
Definition flat_runs : list (string * Digest.node) :=
  [("2024-01-04", run_store "d" logged); ("2024-01-09", run_store "i" logged);
   ("2024-01-01", run_store "a" logged); ("2024-01-10", run_store "j" []);
   ("2024-01-07", run_store "g" logged); ("2024-01-02", run_store "b" logged);
   ("2024-01-08", run_store "h" logged); ("2024-01-03", run_store "c" logged);
   ("2024-01-06", run_store "f" logged); ("2024-01-05", run_store "e" logged);
   ("README.md", Digest.File JsonSyntaxError)].

Definition flat_vault : Digest.node :=
  Digest.Dir [("runs", Digest.Dir flat_runs)].

(** Ten run directories: nine directly below [runs], and [z] one level
    down, in [t]. *)
Definition nested_runs : list (string * Digest.node) :=
  [("t-0", run_store "a0" []); ("t-1", run_store "a1" []);
   ("t-2", run_store "a2" []); ("t-3", run_store "a3" []);
   ("t", Digest.Dir [("z", run_store "z" []); ("notes.txt", Digest.File JsonSyntaxError)]);
   ("t-4", run_store "a4" []); ("t-5", run_store "a5" []);
   ("t-6", run_store "a6" []); ("t-7", run_store "a7" []);
   ("t-8", run_store "a8" [])].

Definition nested_vault : Digest.node :=
  Digest.Dir [("runs", Digest.Dir nested_runs)].

(** C8, as the code has it.  When the artifacts of the run directories
    read decode, the digest has one record for each, in their order.  The
    run directories read are the candidates sorted downwards by path below
    [runs], name by name, and with a limit that is not negative the first
    [limit] of them: every candidate left out is at most every one kept.
    So with ten candidates and limit 3 there are exactly 3 records, of the
    3 greatest paths.  For run directories directly below [runs] the order
    of paths is the order of their names. *)
Theorem digest_selects_greatest :
  (∀ (vault : Digest.node) (entries : list (string * Digest.node))
     (limit : option Z),
     Digest.child vault "runs" = Some (Digest.Dir entries) →
     Forall (run_store_ok (Digest.Dir entries)) (Digest.selected entries limit) →
     ∃ records,
       Digest._collect_runs vault limit = Ok records
       ∧ map Digest.run_dir records = Digest.selected entries limit)
  ∧ (∀ (entries : list (string * Digest.node)),
       Digest.sorted_reverse (Digest.candidates entries) ≡ₚ Digest.candidates entries
       ∧ StronglySorted Digest.path_ge
           (Digest.sorted_reverse (Digest.candidates entries))
       ∧ Digest.selected entries None
         = Digest.sorted_reverse (Digest.candidates entries))
  ∧ (∀ (entries : list (string * Digest.node)) (limit : Z),
       (0 ≤ limit)%Z →
       Digest.selected entries (Some limit)
       = take (Z.to_nat limit) (Digest.sorted_reverse (Digest.candidates entries))
       ∧ ∀ kept left_out,
           kept ∈ Digest.selected entries (Some limit) →
           left_out ∈ drop (Z.to_nat limit)
                        (Digest.sorted_reverse (Digest.candidates entries)) →
           Digest.path_le left_out kept)
  ∧ (∀ (vault : Digest.node) (entries : list (string * Digest.node)),
       Digest.child vault "runs" = Some (Digest.Dir entries) →
       length (Digest.candidates entries) = 10 →
       Forall (run_store_ok (Digest.Dir entries))
         (Digest.selected entries (Some 3%Z)) →
       ∃ records,
         Digest._collect_runs vault (Some 3%Z) = Ok records
         ∧ length records = 3
         ∧ map Digest.run_dir records
           = take 3 (Digest.sorted_reverse (Digest.candidates entries)))
  ∧ (∀ a b : string, Digest.path_le [a] [b] ↔ (a ≤ b)%string).
Proof.
  split_and!.
  - apply collect_runs_Ok.
  - intros entries. split_and!;
      [apply sorted_reverse_perm | apply sorted_reverse_sorted | done].
  - apply selected_greatest.
  - intros vault entries Hruns Hten Hok.
    destruct (collect_runs_Ok vault entries (Some 3%Z) Hruns Hok)
      as (records & Hrecords & Hdirs).
    exists records. split_and!; [done| |done].
    rewrite <- (length_map Digest.run_dir), Hdirs.
    unfold Digest.selected, Digest.slice_to. simpl.
    rewrite length_take, (Permutation_length (sorted_reverse_perm _)), Hten.
    reflexivity.
  - apply path_le_names.
Qed.

Lemma digest_selects_greatest_witness :
  ∃ records,
    Digest._collect_runs flat_vault (Some 3%Z) = Ok records
    ∧ length records = 3
    ∧ map Digest.run_dir records = [["2024-01-10"]; ["2024-01-09"]; ["2024-01-08"]].
Proof.
  refine (proj1 (proj2 (proj2 (proj2 digest_selects_greatest)))
            flat_vault flat_runs _ _ _).
  - vm_compute. reflexivity.
  - vm_compute. reflexivity.
  - repeat (constructor; [do 4 eexists; split_and!; vm_compute; reflexivity|]).
    constructor.
Defined.

(** C8, as stated, fails when a run directory lies one level down: of
    the ten in [nested_vault], limit 3 keeps [t-8], [t-7] and [t-6] and
    leaves out [t/z], though [t-6] is below it both by directory name
    ([z]) and by path as a string ([t/z]).  Paths are compared name by
    name, and the name [t] is below [t-6]. *)
Lemma nested_run_dirs_sorted_by_path :
  length (Digest.candidates nested_runs) = 10
  ∧ ["t"; "z"] ∈ Digest.candidates nested_runs
  ∧ (∃ records,
       Digest._collect_runs nested_vault (Some 3%Z) = Ok records
       ∧ map Digest.run_dir records = [["t-8"]; ["t-7"]; ["t-6"]])
  ∧ ("t-6" ≤ "z")%string ∧ "t-6" ≠ "z"
  ∧ (str_join "/" ["t-6"] ≤ str_join "/" ["t"; "z"])%string
  ∧ str_join "/" ["t-6"] ≠ str_join "/" ["t"; "z"].
Proof.
  split_and!.
  - vm_compute. reflexivity.
  - apply (bool_decide_unpack _). vm_compute. exact I.
  - eexists. split; vm_compute; reflexivity.
  - vm_compute. exact I.
  - discriminate.
  - vm_compute. exact I.
  - discriminate.
Qed.

(** Three run directories: the first with a logger artifact that is an
    empty object, the second with none, the third with a record; the
    first also has an empty evaluation. *)
Definition logger_runs : list (string * Digest.node) :=
  [("run-1",
    run_store "a" [("logger.json", Digest.File (JsonDoc (VDict [])));
                   ("evaluation.json", Digest.File (JsonDoc (VDict [])))]);
   ("run-2", run_store "b" []);
   ("run-3",
    run_store "c"
      (logged ++
       [("evaluation.json",
         Digest.File (JsonDoc (VDict [("schema_version", VStr "1.0");
                                      ("criteria", VList [VStr "x"; VStr "y"])])))]))].

Definition logger_vault : Digest.node :=
  Digest.Dir [("runs", Digest.Dir logger_runs)].

(** C10. In every record of a digest, [logger_present] is true exactly
    when [logger.json] is a file of the run directory that decodes to a
    value true in Python's sense: not an empty object, list or string, nor
    zero, false or null.  An empty object there gives false, as a missing
    file does; and an evaluation that is missing or an empty object gives
    no schema and zero criteria. *)
Theorem logger_present_iff (vault runs_root : Digest.node) (limit : option Z)
    (records : list Digest.DigestRecord) :
  Digest._collect_runs vault limit = Ok records →
  Digest.child vault "runs" = Some runs_root →
  Forall
    (λ record,
       let logger :=
         Digest.at_path runs_root (Digest.run_dir record ++ ["logger.json"]) in
       let evaluation :=
         Digest.at_path runs_root (Digest.run_dir record ++ ["evaluation.json"]) in
       (Digest.logger_present record = true
        ↔ ∃ content, logger = Some (Digest.File (JsonDoc content))
                     ∧ truthy content = true)
       ∧ (logger = Some (Digest.File (JsonDoc (VDict []))) →
          Digest.logger_present record = false)
       ∧ (logger = None → Digest.logger_present record = false)
       ∧ (evaluation = None ∨ evaluation = Some (Digest.File (JsonDoc (VDict []))) →
          Digest.evaluation_schema record = VNone
          ∧ Digest.evaluation_criteria record = 0))
    records.
Proof.
  intros Hrecords Hruns. unfold Digest._collect_runs in Hrecords.
  rewrite Hruns in Hrecords. destruct runs_root as [|entries]; [done|].
  apply mapM_inv in Hrecords. apply Forall_forall. intros record Hrecord.
  apply list_elem_of_lookup in Hrecord as [i Hi].
  destruct (Forall2_lookup_r _ _ _ _ _ Hrecords Hi) as (run_path & _ & Hone).
  apply collect_one_inv in Hone
    as (relay & evaluation & logger & count & _ & Heval & Hlogger & Hcount & ->).
  simpl. unfold Digest._load_json in Heval, Hlogger.
  split_and!.
  - split.
    + intros Htrue.
      destruct (Digest.at_path _ (run_path ++ ["logger.json"])) as [[[content|]|]|];
        simplify_eq; eauto.
    + intros (content & Hfile & Htrue). rewrite Hfile in Hlogger. by simplify_eq.
  - intros Hfile. rewrite Hfile in Hlogger. by simplify_eq.
  - intros Hfile. rewrite Hfile in Hlogger. by simplify_eq.
  - intros [Hfile|Hfile]; rewrite Hfile in Heval; simplify_eq;
      simpl in Hcount; by simplify_eq.
Qed.

Lemma logger_present_iff_witness :
  ∃ records,
    Digest._collect_runs logger_vault None = Ok records
    ∧ map Digest.logger_present records = [true; false; false]
    ∧ map Digest.evaluation_criteria records = [2; 0; 0]
    ∧ Forall
        (λ record,
           Digest.logger_present record = true
           ↔ ∃ content,
               Digest.at_path (Digest.Dir logger_runs)
                 (Digest.run_dir record ++ ["logger.json"])
               = Some (Digest.File (JsonDoc content))
               ∧ truthy content = true)
        records.
Proof.
  eexists. split; [vm_compute; reflexivity|].
  split; [reflexivity|]. split; [reflexivity|].
  eapply Forall_impl.
  - refine (logger_present_iff logger_vault (Digest.Dir logger_runs) None _ _ _);
      vm_compute; reflexivity.
  - intros record H. exact (proj1 H).
Defined.

(** ** The resolver and the list objects of its caller *)

Section store_facts.
Import Relay.
Variable fs : filesystem.
Local Arguments alloc : simpl never.
Local Arguments deref : simpl never.

(** A computation over the store that returns what [pure] returns and
    only adds list objects to the store. *)
Definition refines {A : Type} (run : result A * store) (pure : result A)
    (σ : store) : Prop :=
  run.1 = pure ∧ σ `prefix_of` run.2.

Lemma alloc_spec (σ : store) (l : list string) :
  σ `prefix_of` (alloc σ l).2 ∧ (alloc σ l).2 !! (alloc σ l).1 = Some l.
Proof.
  unfold alloc. simpl. split; [by apply prefix_app_r|].
  by apply list_lookup_middle.
Qed.

Lemma ancestry_or_new_spec (ancestry : option nat) (σ : store) :
  σ `prefix_of` (ancestry_or_new ancestry σ).2
  ∧ (ancestry_or_new ancestry σ).2 !! (ancestry_or_new ancestry σ).1
    = Some (deref σ ancestry).
Proof.
  unfold ancestry_or_new. destruct ancestry as [a|]; [|apply alloc_spec].
  case_bool_decide as Hempty.
  - rewrite Hempty. apply alloc_spec.
  - split; [done|]. unfold deref in *. simpl in *. by destruct (σ !! a).
Qed.

Lemma deref_prefix (σ σ' : store) (a : nat) (l : list string) :
  σ !! a = Some l → σ `prefix_of` σ' → deref σ' (Some a) = l.
Proof.
  intros Ha Hpre. unfold deref. by rewrite (prefix_lookup_Some _ _ _ _ Ha Hpre).
Qed.

Lemma foldM_store_refines {A B : Type}
    (f : B → A → store → result B * store) (g : B → A → result B) (σ0 : store)
    (l : list A) (acc : B) (σ : store) :
  (∀ b a σ, σ0 `prefix_of` σ → refines (f b a σ) (g b a) σ) →
  σ0 `prefix_of` σ →
  refines (foldM_store f acc l σ) (foldM g acc l) σ.
Proof.
  intros Hf. revert acc σ. induction l as [|x l IH]; intros acc σ Hσ; simpl.
  { by split. }
  destruct (Hf acc x σ Hσ) as [Hres Hpre].
  destruct (f acc x σ) as [[acc'|e|] σ'] eqn:Hx; simpl in *; rewrite <- Hres; simpl.
  - destruct (IH acc' σ') as [Hres' Hpre']; [by trans σ|].
    split; [done | by trans σ'].
  - by split.
  - by split.
Qed.

Lemma include_store_refines
    (call : string → option nat → store → result dict * store)
    (pure_call : string → list string → result dict)
    (path : string) (anc : nat) (ancestry : list string) (σ0 : store)
    (merged : dict) (include_name : value) (σ : store) :
  (∀ target ref σ, refines (call target ref σ) (pure_call target (deref σ ref)) σ) →
  σ0 !! anc = Some ancestry → σ0 `prefix_of` σ →
  refines (include_store fs call path anc merged include_name σ)
    (target ← include_path fs path include_name;
     included ← pure_call target (ancestry ++ [path]);
     Ok (_deep_merge merged included))
    σ.
Proof.
  intros Hcall Hanc Hσ. unfold include_store.
  destruct (include_path fs path include_name) as [target|e|]; simpl; try by split.
  rewrite (deref_prefix _ _ _ _ Hanc Hσ).
  destruct (alloc_spec σ (ancestry ++ [path])) as [Hpre Hchild].
  unfold alloc in Hpre, Hchild. simpl in Hpre, Hchild.
  set (child := length σ) in *. set (σ1 := σ ++ [ancestry ++ [path]]) in *.
  destruct (Hcall target (Some child) σ1) as [Hres Hpre1].
  unfold deref in Hres. rewrite Hchild in Hres. simpl in Hres. rewrite <- Hres.
  destruct (call target (Some child) σ1) as [[included|e|] σ2]; simpl in *;
    (split; [done | by trans σ1]).
Qed.

(** The resolver over the store returns what the resolver over lists
    returns on the list its ancestry refers to, and leaves every list
    object of the store as it was. *)
Lemma load_stack_store_refines (n : nat) (path : string) (ancestry : option nat)
    (σ : store) :
  refines (load_stack_store fs n path ancestry σ)
    (load_stack_fuel fs n path (deref σ ancestry)) σ.
Proof.
  revert path ancestry σ. induction n as [|n IH]; intros path ancestry σ.
  { by split. }
  cbn [load_stack_store]. rewrite load_stack_fuel_S.
  destruct (ancestry_or_new_spec ancestry σ) as [Hpre Hanc].
  destruct (ancestry_or_new ancestry σ) as [anc σ1]. simpl in Hpre, Hanc.
  rewrite (deref_prefix σ1 σ1 anc _ Hanc) by done.
  destruct (decide (path ∈ deref σ ancestry)) as [Hin|Hnotin].
  { destruct (alloc_spec σ1 (deref σ ancestry ++ [path])) as [Hpre1 Hchain].
    destruct (alloc σ1 (deref σ ancestry ++ [path])) as [chain σ2]. simpl in *.
    unfold deref at 1. rewrite Hchain. split; [done | by trans σ1]. }
  destruct (_load_yaml fs path) as [data|e|]; simpl; try by split.
  destruct (py_attr_get data "include") as [inc|e|]; simpl; try by split.
  destruct (py_iter (py_or inc (VList []))) as [includes|e|]; simpl; try by split.
  destruct (foldM_store_refines
              (include_store fs (load_stack_store fs n) path anc)
              (include_step fs n path (deref σ ancestry)) σ1 includes [] σ1)
    as [Hres Hpre1]; [|done|].
  { intros b a σ' Hσ'.
    by apply (include_store_refines _ (load_stack_fuel fs n) path anc
                (deref σ ancestry) σ1). }
  destruct (foldM_store _ _ _ _) as [[merged|e|] σ2]; simpl in *; rewrite <- Hres; simpl.
  - destruct data; (split; [done | by trans σ1]).
  - split; [done | by trans σ1].
  - split; [done | by trans σ1].
Qed.

Lemma resolve_store_refines (path : string) (ancestry : option nat) (σ : store) :
  refines (_load_stack_with_includes_store fs path ancestry σ)
    (_load_stack_with_includes fs path (deref σ ancestry)) σ.
Proof. apply load_stack_store_refines. Qed.

End store_facts.

(** A reference is live when it is [None] or the address of a list
    object of the store. *)
Definition live (σ : Relay.store) (ref : option nat) : Prop :=
  match ref with
  | Some a => is_Some (σ !! a)
  | None => True
  end.

Lemma deref_live_prefix (σ σ' : Relay.store) (ref : option nat) :
  live σ ref → σ `prefix_of` σ' → Relay.deref σ' ref = Relay.deref σ ref.
Proof.
  destruct ref as [a|]; [|done]. intros [l Hl] Hpre.
  rewrite (deref_prefix σ σ' a l Hl Hpre). unfold Relay.deref. by rewrite Hl.
Qed.

Lemma closes_cycle_dup (chain : list string) : closes_cycle chain → ¬ NoDup chain.
Proof.
  intros (before & p & -> & Hp) Hnd. apply NoDup_app in Hnd as (_ & Hdisj & _).
  apply (Hdisj p Hp). apply list_elem_of_here.
Qed.

(** C9. A call of the resolver with a reference to an ancestry list
    returns what the resolver returns as a function of the files, the path
    and the content of that list; it never runs out of depth; and it
    leaves every list object that was in the store as it was: so a second
    call with the same arguments returns the same, and so does a call for
    any other path and live ancestry, made before or after.  In a
    directory where every file is a mapping that includes files by name,
    and no chain of includes from the path meets a document twice, what is
    returned is a merged configuration. *)
Theorem resolve_deterministic (fs : Relay.filesystem) (path : string)
    (ancestry : option nat) (σ : Relay.store) :
  let first := Relay._load_stack_with_includes_store fs path ancestry σ in
  first.1 = Relay._load_stack_with_includes fs path (Relay.deref σ ancestry)
  ∧ first.1 ≠ OutOfFuel
  ∧ (∀ a l, σ !! a = Some l → first.2 !! a = Some l)
  ∧ (live σ ancestry →
     (Relay._load_stack_with_includes_store fs path ancestry first.2).1 = first.1)
  ∧ (∀ path' ancestry', live σ ancestry' →
       (Relay._load_stack_with_includes_store fs path' ancestry' first.2).1
       = (Relay._load_stack_with_includes_store fs path' ancestry' σ).1)
  ∧ (closed fs → is_Some (Relay.files fs !! path) →
     Relay.deref σ ancestry = [] →
     (∀ w, include_chain fs (path :: w) → NoDup (path :: w)) →
     ∃ cfg, first.1 = Ok cfg).
Proof.
  intros first.
  destruct (resolve_store_refines fs path ancestry σ) as [Hres Hpre].
  fold first in Hres, Hpre.
  assert (∀ path' ancestry', live σ ancestry' →
            (Relay._load_stack_with_includes_store fs path' ancestry' first.2).1
            = (Relay._load_stack_with_includes_store fs path' ancestry' σ).1) as Hany.
  { intros path' ancestry' Hlive.
    rewrite (proj1 (resolve_store_refines fs path' ancestry' first.2)).
    rewrite (proj1 (resolve_store_refines fs path' ancestry' σ)).
    by rewrite (deref_live_prefix σ first.2 ancestry' Hlive Hpre). }
  split_and!.
  - exact Hres.
  - rewrite Hres. apply load_stack_total.
  - intros a l Hl. by apply (prefix_lookup_Some σ).
  - intros Hlive. by apply Hany.
  - exact Hany.
  - intros Hclosed Hpath Hempty Hacyclic. rewrite Hres, Hempty.
    destruct (load_stack_closed fs (S (size (Relay.files fs))) path [] Hclosed Hpath)
      as [Hok|[Hoof|(w & _ & Hchain & Hcyc)]].
    + exact Hok.
    + by apply load_stack_total in Hoof.
    + destruct (closes_cycle_dup _ Hcyc). by apply Hacyclic.
Qed.

(** A caller that holds the list [[x.yaml]] at address 0 and resolves
    [d.yaml] twice with it. *)
Lemma resolve_deterministic_witness :
  live [["/app/stacks/x.yaml"]] (Some 0)
  ∧ (Relay._load_stack_with_includes_store precedence_fs "/app/stacks/d.yaml"
       (Some 0)
       (Relay._load_stack_with_includes_store precedence_fs "/app/stacks/d.yaml"
          (Some 0) [["/app/stacks/x.yaml"]]).2).1
    = (Relay._load_stack_with_includes_store precedence_fs "/app/stacks/d.yaml"
         (Some 0) [["/app/stacks/x.yaml"]]).1.
Proof.
  assert (live [["/app/stacks/x.yaml"]] (Some 0)) as Hlive by (by eexists).
  split; [exact Hlive|].
  exact (proj1 (proj2 (proj2 (proj2
           (resolve_deterministic precedence_fs "/app/stacks/d.yaml" (Some 0)
              [["/app/stacks/x.yaml"]])))) Hlive).
Defined.

(** * Further properties of the code *)

(** ** Deep merge: keys, lookups, identities *)

(** Every dict inside a value has its keys all different, as every
    Python dict has. *)
Fixpoint distinct_keys (v : value) : bool :=
  match v with
  | VList l => forallb distinct_keys l
  | VDict d =>
      bool_decide (NoDup (keys d)) && forallb (λ kv, distinct_keys kv.2) d
  | _ => true
  end.

Section merge_laws.
Import Relay.

Lemma dict_get_NoDup (d : dict) (k : string) (v : value) :
  NoDup (keys d) → (k, v) ∈ d → dict_get d k = Some v.
Proof.
  unfold keys. induction d as [|[k0 x] d IH]; intros Hnd Hin.
  { by apply elem_of_nil in Hin. }
  rewrite fmap_cons in Hnd. apply NoDup_cons in Hnd as [Hk0 Hnd]. simpl in *.
  apply elem_of_cons in Hin as [[= -> ->]|Hin].
  - by rewrite decide_True.
  - destruct (decide (k0 = k)) as [->|Hne]; [|by apply IH].
    destruct Hk0. apply list_elem_of_fmap. by exists (k, v).
Qed.

Lemma dict_set_same (d : dict) (k : string) (v : value) :
  dict_get d k = Some v → dict_set d k v = d.
Proof.
  induction d as [|[k0 x] d IH]; simpl; [done|].
  destruct (decide (k0 = k)) as [->|Hne].
  - by intros [= ->].
  - intros H. by rewrite IH.
Qed.

Lemma filter_ext_elem {A : Type} (P1 P2 : A → Prop)
    `{!∀ x, Decision (P1 x), !∀ x, Decision (P2 x)} (l : list A) :
  (∀ x, x ∈ l → P1 x ↔ P2 x) → filter P1 l = filter P2 l.
Proof.
  induction l as [|a l IH]; intros Hiff; [done|].
  rewrite !filter_cons.
  assert (filter P1 l = filter P2 l) as ->.
  { apply IH. intros x Hx. apply Hiff. by apply list_elem_of_further. }
  pose proof (Hiff a (list_elem_of_here _ _)) as Ha.
  destruct (decide (P1 a)), (decide (P2 a)); tauto.
Qed.

Lemma merge_step_keys (base : dict) (kv : string * value) :
  keys (merge_step base kv)
  = if decide (kv.1 ∈ keys base) then keys base else keys base ++ [kv.1].
Proof. unfold merge_step. apply keys_dict_set. Qed.

Lemma deep_merge_keys_nodup (base incoming : dict) :
  NoDup (keys incoming) →
  keys (_deep_merge base incoming)
  = keys base ++ filter (λ k, k ∉ keys base) (keys incoming).
Proof.
  revert base. induction incoming as [|[k v] incoming IH]; intros base Hnd.
  { rewrite deep_merge_nil_r. by rewrite app_nil_r. }
  unfold keys in Hnd. rewrite fmap_cons in Hnd. apply NoDup_cons in Hnd as [Hk Hnd].
  simpl in Hk. rewrite deep_merge_cons, IH, merge_step_keys by done. simpl.
  rewrite filter_cons.
  destruct (decide (k ∈ keys base)) as [Hin|Hnotin].
  - rewrite decide_False by (intros ?; done). done.
  - rewrite decide_True by done. rewrite <- app_assoc. simpl. do 2 f_equal.
    apply filter_ext_elem. intros x Hx.
    rewrite elem_of_app, list_elem_of_singleton.
    split; [tauto|]. intros Hxb [?| ->]; done.
Qed.

(** A key that neither side has is not in the merge. *)
Lemma deep_merge_get_None (base incoming : dict) (k : string) :
  dict_get base k = None → dict_get incoming k = None →
  dict_get (_deep_merge base incoming) k = None.
Proof.
  revert base. induction incoming as [|[k0 v0] incoming IH]; intros base Hb Hi.
  { by rewrite deep_merge_nil_r. }
  simpl in Hi. destruct (decide (k0 = k)) as [->|Hne]; [done|].
  rewrite deep_merge_cons. apply IH; [|done].
  unfold merge_step. simpl. by rewrite dict_get_set_ne.
Qed.

Lemma deep_merge_nil_l (incoming : dict) :
  NoDup (keys incoming) → _deep_merge [] incoming = incoming.
Proof.
  intros Hnd. rewrite deep_merge_fold.
  cut (∀ acc, NoDup (keys acc ++ keys incoming) →
         fold_left merge_step incoming acc = acc ++ incoming).
  { intros H. by apply (H []). }
  clear Hnd. induction incoming as [|[k v] incoming IH]; intros acc Hnd; simpl.
  { by rewrite app_nil_r. }
  assert (k ∉ keys acc) as Hk.
  { apply NoDup_app in Hnd as (_ & Hdisj & _). intros Hin.
    apply (Hdisj k Hin). apply list_elem_of_here. }
  unfold merge_step at 2. simpl.
  rewrite (proj2 (dict_get_None acc k) Hk). simpl.
  rewrite dict_set_fresh by done. rewrite IH.
  - by rewrite <- app_assoc.
  - unfold keys in *. rewrite fmap_app. simpl. by rewrite <- app_assoc.
Qed.

Lemma deep_merge_same_items (base items : dict) :
  Forall (λ kv, dict_get base kv.1 = Some kv.2
                ∧ merge_value (Some kv.2) kv.2 = kv.2) items →
  _deep_merge base items = base.
Proof.
  intros Hitems. rewrite deep_merge_fold.
  induction Hitems as [|[k v] items [Hget Hsame] _ IH]; simpl; [done|].
  unfold merge_step at 2. cbn [fst snd] in *. rewrite Hget, Hsame.
  by rewrite dict_set_same.
Qed.

Lemma deep_merge_idempotent_value (v : value) :
  distinct_keys v = true →
  ∀ d, v = VDict d → _deep_merge d d = d.
Proof.
  induction v as [| | | | |l IH|items IH] using value_rect_nested;
    intros Hwf d [=]. subst d.
  simpl in Hwf. apply andb_true_iff in Hwf as [Hnd Hsub].
  apply bool_decide_eq_true_1 in Hnd.
  rewrite List.forallb_forall in Hsub.
  apply deep_merge_same_items. apply Forall_forall. intros [k x] Hin. simpl.
  split; [by apply dict_get_NoDup|].
  destruct x as [| | | | | |i]; try done. simpl. f_equal.
  rewrite Forall_forall in IH. apply (IH (k, VDict i) Hin); [|done].
  apply (Hsub (k, VDict i)). by apply list_elem_of_In.
Qed.

End merge_laws.

(** X1. The keys of a merge are the keys of the base, in their order,
    followed by the keys that only the incoming mapping has, in theirs. *)
Theorem deep_merge_keys (base incoming : dict) :
  NoDup (keys incoming) →
  keys (Relay._deep_merge base incoming)
  = keys base ++ filter (λ k, k ∉ keys base) (keys incoming).
Proof. apply deep_merge_keys_nodup. Qed.

Lemma deep_merge_keys_witness :
  keys (Relay._deep_merge [("a", VInt 1); ("b", VInt 2)]
                          [("c", VInt 3); ("a", VInt 4)])
  = ["a"; "b"; "c"].
Proof.
  refine (deep_merge_keys [("a", VInt 1); ("b", VInt 2)]
            [("c", VInt 3); ("a", VInt 4)] _).
  apply (bool_decide_unpack _). vm_compute. exact I.
Defined.

(** X2. Reading a key of a merge: a key of the incoming mapping reads
    as the incoming value, unless the base and the incoming mapping both
    have a mapping there, which is then the merge of the two; a key only
    the base has reads as in the base; a key neither has is absent. *)
Theorem deep_merge_lookup (base incoming : dict) (k : string) :
  NoDup (keys incoming) →
  dict_get (Relay._deep_merge base incoming) k =
    match dict_get incoming k, dict_get base k with
    | Some (VDict i), Some (VDict b) => Some (VDict (Relay._deep_merge b i))
    | Some v, _ => Some v
    | None, old => old
    end.
Proof.
  intros Hnd. rewrite deep_merge_get by done.
  destruct (dict_get incoming k) as [v|]; [|done].
  unfold merge_value.
  destruct (dict_get base k) as [[]|]; destruct v; reflexivity.
Qed.

Lemma deep_merge_lookup_witness :
  dict_get
    (Relay._deep_merge [("a", VList [VInt 1; VInt 2])] [("a", VList [VInt 3])]) "a"
  = Some (VList [VInt 3]).
Proof.
  refine (deep_merge_lookup [("a", VList [VInt 1; VInt 2])] [("a", VList [VInt 3])]
            "a" _).
  apply (bool_decide_unpack _). vm_compute. exact I.
Defined.

(** X3. Merging the empty mapping into a base gives the base; merging a
    mapping into the empty one gives that mapping; and merging a mapping
    into itself changes nothing, at any depth. *)
Theorem deep_merge_identities (d : dict) :
  distinct_keys (VDict d) = true →
  Relay._deep_merge d [] = d
  ∧ Relay._deep_merge [] d = d
  ∧ Relay._deep_merge d d = d.
Proof.
  intros Hwf. split_and!.
  - apply deep_merge_nil_r.
  - apply deep_merge_nil_l. simpl in Hwf. apply andb_true_iff in Hwf as [Hnd _].
    by apply bool_decide_eq_true_1 in Hnd.
  - by apply (deep_merge_idempotent_value (VDict d)).
Qed.

Lemma deep_merge_identities_witness :
  Relay._deep_merge [("a", VDict [("x", VInt 1)]); ("b", VList [])]
                    [("a", VDict [("x", VInt 1)]); ("b", VList [])]
  = [("a", VDict [("x", VInt 1)]); ("b", VList [])].
Proof.
  refine (proj2 (proj2 (deep_merge_identities
            [("a", VDict [("x", VInt 1)]); ("b", VList [])] _))).
  vm_compute. reflexivity.
Defined.

(** ** The resolver: what a resolved configuration holds, and errors *)

Lemma foldM_invariant {A B : Type} (P : B → Prop) (f : B → A → result B)
    (l : list A) (acc b : B) :
  P acc → (∀ b a b', P b → f b a = Ok b' → P b') →
  foldM f acc l = Ok b → P b.
Proof.
  intros Hacc Hstep. revert acc Hacc.
  induction l as [|x l IH]; intros acc Hacc H; simpl in H.
  { by injection H as <-. }
  apply bind_inv_Ok in H as (acc' & Hx & H). eauto.
Qed.

Section resolver_facts.
Import Relay.
Variable fs : filesystem.

Lemma load_stack_fuel_no_include (n : nat) (path : string) (ancestry : list string)
    (cfg : dict) :
  load_stack_fuel fs n path ancestry = Ok cfg → dict_get cfg "include" = None.
Proof.
  revert path ancestry cfg. induction n as [|n IH]; intros path ancestry cfg H; [done|].
  rewrite load_stack_fuel_S in H. case_decide; [done|].
  apply bind_inv_Ok in H as (data & _ & H).
  apply bind_inv_Ok in H as (inc & _ & H).
  apply bind_inv_Ok in H as (names & _ & H).
  apply bind_inv_Ok in H as (merged & Hfold & H).
  destruct data as [| | | | | |items]; try done. injection H as <-.
  apply deep_merge_get_None; [|apply body_of_include].
  apply (foldM_invariant (λ d, dict_get d "include" = None)
           (include_step fs n path ancestry) names [] merged); [done| |done].
  intros b a b' Hb Hstep. unfold include_step in Hstep.
  apply bind_inv_Ok in Hstep as (target & _ & Hstep).
  apply bind_inv_Ok in Hstep as (included & Hrec & Hstep). injection Hstep as <-.
  apply deep_merge_get_None; [done|]. by apply (IH _ _ _ Hrec).
Qed.

Lemma filter_no_include (items : dict) :
  dict_get items "include" = None →
  filter (λ kv : string * value, kv.1 ≠ "include") items = items.
Proof.
  induction items as [|[k v] items IH]; simpl; [done|].
  destruct (decide (k = "include")) as [->|Hne]; [done|]. intros H.
  rewrite filter_cons_True by done. by rewrite IH.
Qed.

Lemma load_stack_plain (path : string) (ancestry : list string) (items : dict) :
  path ∉ ancestry →
  files fs !! path = Some (YamlDoc (VDict items)) →
  NoDup (keys items) →
  truthy (py_get items "include") = false →
  _load_stack_with_includes fs path ancestry
  = Ok (filter (λ kv, kv.1 ≠ "include") items).
Proof.
  intros Hanc Hfile Hnd Hinc.
  rewrite load_stack_unfold, decide_False by done.
  unfold _load_yaml. rewrite Hfile.
  assert (py_or (VDict items) (VDict []) = VDict items) as -> by (by destruct items).
  simpl. unfold py_or at 1. rewrite Hinc. simpl.
  rewrite deep_merge_nil_l by apply body_of_nodup.
  by rewrite body_of_filter.
Qed.

End resolver_facts.

(** X4. A configuration that the resolver returns has no [include] key,
    whatever the files, the path and the ancestry. *)
Theorem resolved_has_no_include (fs : Relay.filesystem) (path : string)
    (ancestry : list string) (cfg : dict) :
  Relay._load_stack_with_includes fs path ancestry = Ok cfg →
  dict_get cfg "include" = None.
Proof. apply load_stack_fuel_no_include. Qed.

Lemma resolved_has_no_include_witness :
  dict_get [("k", VStr "body")] "include" = None.
Proof.
  refine (resolved_has_no_include precedence_fs "/app/stacks/d.yaml" [] _ _).
  vm_compute. reflexivity.
Defined.

(** X5. A document that is a mapping and includes nothing (no [include]
    key, or one that is null or empty) resolves to itself, less that key;
    an empty document resolves to the empty mapping. *)
Theorem plain_document_resolves (fs : Relay.filesystem) (path : string)
    (ancestry : list string) :
  path ∉ ancestry →
  (∀ items,
     Relay.files fs !! path = Some (YamlDoc (VDict items)) →
     NoDup (keys items) →
     truthy (py_get items "include") = false →
     Relay._load_stack_with_includes fs path ancestry
     = Ok (filter (λ kv, kv.1 ≠ "include") items)
     ∧ (dict_get items "include" = None →
        Relay._load_stack_with_includes fs path ancestry = Ok items))
  ∧ (∀ content,
       Relay.files fs !! path = Some (YamlDoc content) →
       truthy content = false →
       Relay._load_stack_with_includes fs path ancestry = Ok []).
Proof.
  intros Hanc. split.
  - intros items Hfile Hnd Hinc.
    rewrite (load_stack_plain fs path ancestry items) by done.
    split; [done|]. intros Hnone. by rewrite filter_no_include.
  - intros content Hfile Hfalse.
    rewrite load_stack_unfold, decide_False by done.
    unfold Relay._load_yaml, py_or. by rewrite Hfile, Hfalse.
Qed.

Lemma plain_document_resolves_witness :
  Relay._load_stack_with_includes precedence_fs "/app/stacks/b.yaml" []
  = Ok [("k", VStr "include")].
Proof.
  refine (proj2 (proj1 (plain_document_resolves precedence_fs "/app/stacks/b.yaml" []
            _) [("k", VStr "include")] _ _ _) _).
  - apply not_elem_of_nil.
  - vm_compute. reflexivity.
  - apply (bool_decide_unpack _). vm_compute. exact I.
  - reflexivity.
  - reflexivity.
Defined.

(** A stack whose second include is a list document, before a third
    that is no YAML. *)
Definition failing_include_fs : Relay.filesystem :=
  stacks_fs
    [("/app/stacks/main.yaml",
      YamlDoc (VDict [("include", VList [VStr "base.yaml"; VStr "list.yaml";
                                         VStr "later.yaml"]);
                      ("k", VInt 1)]));
     ("/app/stacks/base.yaml", YamlDoc (VDict [("k", VInt 0)]));
     ("/app/stacks/list.yaml", YamlDoc (VList [VStr "item"]));
     ("/app/stacks/later.yaml", YamlSyntaxError)]
    ["base.yaml"; "later.yaml"; "list.yaml"; "main.yaml"].

(** X6. The resolver catches nothing.  An exception raised when the
    document itself is loaded is the exception of the resolution.  When an
    include raises, after the includes before it resolved, the resolution
    of the including document raises the same exception: the includes
    after it are not looked at. *)
Theorem include_error_propagates (fs : Relay.filesystem) (path : string)
    (ancestry : list string) :
  path ∉ ancestry →
  (∀ e, Relay._load_yaml fs path = Raise e →
        Relay._load_stack_with_includes fs path ancestry = Raise e)
  ∧ (∀ items before name after configs e,
       Relay._load_yaml fs path = Ok (VDict items) →
       dict_get items "include"
       = Some (VList (VStr <$> (before ++ name :: after))) →
       Forall2
         (λ name cfg,
            Relay._load_stack_with_includes fs
              (Relay.resolve fs (Relay.join fs (Relay.parent fs path) name))
              (ancestry ++ [path])
            = Ok cfg)
         before configs →
       Relay._load_stack_with_includes fs
         (Relay.resolve fs (Relay.join fs (Relay.parent fs path) name))
         (ancestry ++ [path])
       = Raise e →
       Relay._load_stack_with_includes fs path ancestry = Raise e).
Proof.
  intros Hanc. split.
  - intros e Hload. by rewrite load_stack_unfold, decide_False, Hload.
  - intros items before name after configs e Hload Hinc Hbefore Hname.
    rewrite load_stack_unfold, decide_False, Hload by done. simpl.
    unfold py_get. rewrite Hinc. simpl.
    assert (py_iter (py_or (VList (VStr <$> before ++ name :: after)) (VList []))
            = Ok (VStr <$> before ++ name :: after)) as ->.
    { unfold py_or. by destruct before. }
    simpl. rewrite fmap_app, foldM_app, (include_loop_Ok _ _ _ _ configs) by done.
    rewrite fmap_cons.
    assert (∀ acc, include_call fs path ancestry acc (VStr name) = Raise e) as Hcall.
    { intros acc. unfold include_call. simpl. by rewrite Hname. }
    simpl. by rewrite Hcall.
Qed.

Lemma include_error_propagates_witness :
  Relay._load_stack_with_includes failing_include_fs "/app/stacks/main.yaml" []
  = Raise (PyError AttributeError "'list' object has no attribute 'get'").
Proof.
  refine (proj2 (include_error_propagates failing_include_fs "/app/stacks/main.yaml" []
            _)
            [("include", VList [VStr "base.yaml"; VStr "list.yaml"; VStr "later.yaml"]);
             ("k", VInt 1)]
            ["base.yaml"] "list.yaml" ["later.yaml"] [[("k", VInt 0)]] _ _ _ _ _).
  - apply not_elem_of_nil.
  - vm_compute. reflexivity.
  - vm_compute. reflexivity.
  - constructor; [vm_compute; reflexivity | constructor].
  - vm_compute. reflexivity.
Defined.

(** ** The registry: what is found, and when nothing is *)

Section registry_facts.
Import Relay.
Variable fs : filesystem.

(** The resolver raises the cycle error or an error of the interpreter
    or a library, no other. *)
Lemma load_stack_fuel_exn (n : nat) (path : string) (ancestry : list string)
    (e : exn) :
  load_stack_fuel fs n path ancestry = Raise e →
  (∃ chain, e = CircularInclude chain) ∨ (∃ cls what, e = PyError cls what).
Proof.
  revert path ancestry e. induction n as [|n IH]; intros path ancestry e H; [done|].
  rewrite load_stack_fuel_S in H. case_decide.
  { injection H as <-. eauto. }
  unfold _load_yaml in H. destruct (files fs !! path) as [[content|]|];
    simpl in H; try (injection H as <-; eauto; fail).
  destruct (py_or content (VDict [])) as [| | | | | |items] eqn:Hdata;
    simpl in H; try (injection H as <-; eauto; fail).
  destruct (py_or (py_get items "include") (VList [])) as [| | | | |l|d];
    simpl in H; try (injection H as <-; eauto; fail).
  all: match type of H with
       | (foldM ?f ?acc ?l ≫= _) = _ =>
           destruct (foldM_inv f l acc) as [(b & Hb & _)|(b & a & _ & Hstep & Hne)];
           [by rewrite Hb in H
           |destruct (foldM f acc l) as [merged|e'|] eqn:Hfold;
            [by destruct (Hne merged) | | done]]
       end.
  all: simpl in H; injection H as <-.
  all: unfold include_step in Hstep.
  all: destruct a; simpl in Hstep; try (injection Hstep as <-; eauto; fail).
  all: match type of Hstep with
       | (load_stack_fuel fs ?m ?t ?a ≫= _) = _ =>
           destruct (load_stack_fuel fs m t a) as [cfg|e''|] eqn:Hrec;
           simpl in Hstep; try done; injection Hstep as <-; by apply (IH _ _ _ Hrec)
       end.
Qed.

Lemma candidate_outcome_inv (persona role stacks_dir candidate : string)
    (stack : dict) (path : string) :
  candidate_outcome fs persona role stacks_dir candidate = Ok (Some (stack, path)) →
  path = resolve fs (join fs stacks_dir candidate)
  ∧ _load_stack_with_includes fs path [] = Ok stack
  ∧ ∃ routing,
      py_or (py_get stack "routing") (VDict []) = VDict routing
      ∧ py_get routing "persona" = VStr persona
      ∧ py_get routing "role" = VStr role.
Proof.
  unfold candidate_outcome. intros H.
  apply bind_inv_Ok in H as (stack' & Hstack & H). simpl in H.
  destruct (py_or (py_get stack' "routing") (VDict [])) as [| | | | | |routing]
    eqn:Hrouting; try done.
  simpl in H.
  destruct (py_get routing "persona") as [| | | |p| |] eqn:Hp; try done. simpl in H.
  case_bool_decide as Hpersona; [|done]. subst p.
  destruct (py_get routing "role") as [| | | |r| |] eqn:Hr; try done. simpl in H.
  case_bool_decide as Hrole; [|done]. subst r.
  injection H as -> <-. split_and!; [done|done|]. by exists routing.
Qed.

Lemma candidate_outcome_exn (persona role stacks_dir candidate : string) (e : exn) :
  candidate_outcome fs persona role stacks_dir candidate = Raise e →
  (∃ chain, e = CircularInclude chain) ∨ (∃ cls what, e = PyError cls what).
Proof.
  unfold candidate_outcome. intros H.
  destruct (_load_stack_with_includes fs _ []) as [stack|e'|] eqn:Hstack;
    simpl in H; try done.
  - destruct (py_or (py_get stack "routing") (VDict [])) as [| | | | | |routing];
      simpl in H; try (injection H as <-; eauto; fail).
    destruct (py_eq_str (py_get routing "persona") persona); [|done].
    by destruct (py_eq_str (py_get routing "role") role).
  - injection H as <-. by apply load_stack_fuel_exn in Hstack.
Qed.

Lemma discover_loop_found (persona role stacks_dir : string)
    (candidates : list string) (found : dict * string) :
  discover_loop fs persona role stacks_dir candidates = Ok found →
  ∃ candidate, candidate ∈ candidates
    ∧ candidate_outcome fs persona role stacks_dir candidate = Ok (Some found).
Proof.
  induction candidates as [|c rest IH]; [done|].
  rewrite discover_loop_cons. intros H.
  apply bind_inv_Ok in H as ([other|] & Hc & H).
  - injection H as ->. exists c. split; [apply list_elem_of_here | done].
  - destruct (IH H) as (c' & Hc' & Hout). exists c'.
    split; [by apply list_elem_of_further | done].
Qed.

Lemma discover_loop_none (persona role stacks_dir : string)
    (candidates : list string) (persona' role' : string) :
  discover_loop fs persona role stacks_dir candidates
  = Raise (NoStackFound persona' role')
  ↔ persona' = persona ∧ role' = role
    ∧ Forall (λ c, candidate_outcome fs persona role stacks_dir c = Ok None)
        candidates.
Proof.
  induction candidates as [|c rest IH].
  { simpl. split; [by intros [= -> ->] | by intros (-> & -> & _)]. }
  rewrite discover_loop_cons, Forall_cons.
  destruct (candidate_outcome fs persona role stacks_dir c) as [[other|]|e|] eqn:Hc;
    simpl.
  - split; [done | by intros (_ & _ & ? & _)].
  - rewrite IH. split; [by intros (? & ? & ?) | by intros (? & ? & _ & ?)].
  - split; [|by intros (_ & _ & ? & _)].
    intros [= ->]. apply candidate_outcome_exn in Hc as [[? ?]|(? & ? & ?)]; done.
  - split; [done | by intros (_ & _ & ? & _)].
Qed.

End registry_facts.

(** X7. A stack that the lookup by persona and role returns is the
    resolution of a file the directory lists, and its routing names that
    persona and that role. *)
Theorem discovered_stack_matches (fs : Relay.filesystem)
    (persona role stacks_dir : string) (stack : dict) (path : string) :
  Relay._discover_stack fs persona role stacks_dir None = Ok (stack, path) →
  ∃ candidate routing,
    candidate ∈ Relay.glob_yaml fs stacks_dir
    ∧ path = Relay.resolve fs (Relay.join fs stacks_dir candidate)
    ∧ Relay._load_stack_with_includes fs path [] = Ok stack
    ∧ py_or (py_get stack "routing") (VDict []) = VDict routing
    ∧ py_get routing "persona" = VStr persona
    ∧ py_get routing "role" = VStr role.
Proof.
  unfold Relay._discover_stack. intros H.
  apply discover_loop_found in H as (candidate & Hin & Hout).
  apply candidate_outcome_inv in Hout as (Hpath & Hstack & routing & Hr & Hp & Hro).
  exists candidate, routing. split_and!; try done.
  unfold Relay.sorted_names in Hin. by rewrite merge_sort_Permutation in Hin.
Qed.

Lemma discovered_stack_matches_witness :
  ∃ candidate routing,
    candidate ∈ Relay.glob_yaml registry_fs "/app/stacks"
    ∧ "/app/stacks/b.yaml"
      = Relay.resolve registry_fs (Relay.join registry_fs "/app/stacks" candidate)
    ∧ Relay._load_stack_with_includes registry_fs "/app/stacks/b.yaml" []
      = Ok [("routing", VDict [("persona", VStr "p"); ("role", VStr "r")]);
            ("agents", VList [VDict [("name", VStr "second")]])]
    ∧ py_or (py_get [("routing", VDict [("persona", VStr "p"); ("role", VStr "r")]);
                     ("agents", VList [VDict [("name", VStr "second")]])] "routing")
            (VDict [])
      = VDict routing
    ∧ py_get routing "persona" = VStr "p"
    ∧ py_get routing "role" = VStr "r".
Proof.
  refine (discovered_stack_matches registry_fs "p" "r" "/app/stacks" _ _ _).
  vm_compute. reflexivity.
Defined.

(** X8. The lookup by persona and role raises its [LookupError] exactly
    when every file the directory lists resolves, has a mapping or nothing
    as routing, and names another persona or role; so also when the
    directory lists nothing. *)
Theorem no_stack_found_iff (fs : Relay.filesystem)
    (persona role stacks_dir : string) :
  Relay._discover_stack fs persona role stacks_dir None
  = Raise (NoStackFound persona role)
  ↔ ∀ candidate, candidate ∈ Relay.glob_yaml fs stacks_dir →
      candidate_outcome fs persona role stacks_dir candidate = Ok None.
Proof.
  unfold Relay._discover_stack. rewrite discover_loop_none, Forall_forall.
  unfold Relay.sorted_names. split.
  - intros (_ & _ & H) c Hc. apply H. by rewrite merge_sort_Permutation.
  - intros H. split_and!; [done..|]. intros c Hc. apply H.
    by rewrite merge_sort_Permutation in Hc.
Qed.

Lemma no_stack_found_iff_witness :
  Relay._discover_stack registry_fs "p" "writer" "/app/stacks" None
  = Raise (NoStackFound "p" "writer").
Proof.
  refine (proj2 (no_stack_found_iff registry_fs "p" "writer" "/app/stacks") _).
  intros candidate Hc.
  repeat (apply elem_of_cons in Hc as [->|Hc]); [vm_compute; reflexivity ..|].
  by apply elem_of_nil in Hc.
Defined.

(** X9. With an explicit stack file the lookup never looks at the
    persona, the role or the listing of the directory: it returns the same
    for all of them, so also a stack whose routing names others. *)
Theorem explicit_stack_ignores_routing (fs : Relay.filesystem)
    (persona role persona' role' stacks_dir explicit : string)
    (listing : list string) :
  Relay._discover_stack (with_listing fs listing) persona' role' stacks_dir
    (Some explicit)
  = Relay._discover_stack fs persona role stacks_dir (Some explicit).
Proof.
  unfold Relay._discover_stack.
  assert (∀ path,
            Relay._load_stack_with_includes (with_listing fs listing) path []
            = Relay._load_stack_with_includes fs path []) as Hsame.
  { intros path. unfold Relay._load_stack_with_includes.
    apply load_stack_fuel_listing. }
  change (Relay.resolve (with_listing fs listing)) with (Relay.resolve fs).
  rewrite Hsame. reflexivity.
Qed.

(** ** The payload gate: ceilings and shapes *)

(** What [_parse_payload] hands to [json.loads]. *)
Definition payload_text (payload_str : string) : string :=
  if String.eqb payload_str "" then "{}" else payload_str.

(** X10. Without a ceiling, or with the ceiling 0, the size is not
    checked: every payload is parsed.  A payload as long as the ceiling is
    parsed too.  A negative ceiling rejects every payload, the empty one
    included, unparsed. *)
Theorem payload_ceiling_edges (json_loads : string → result value)
    (payload_str : string) :
  (∀ max_bytes, max_bytes = None ∨ max_bytes = Some 0%Z →
     (Relay._parse_payload json_loads payload_str max_bytes).1
     = [payload_text payload_str])
  ∧ (Relay._parse_payload json_loads payload_str
       (Some (Z.of_nat (String.length payload_str)))).1
    = [payload_text payload_str]
  ∧ (∀ n, (n < 0)%Z →
       Relay._parse_payload json_loads payload_str (Some n)
       = ([], Raise (PayloadLimit n))).
Proof.
  split_and!.
  - by intros max_bytes [-> | ->].
  - unfold Relay._parse_payload. rewrite bool_decide_eq_false_2 by lia.
    by rewrite andb_false_r.
  - intros n Hn. unfold Relay._parse_payload.
    rewrite (proj2 (Z.eqb_neq n 0)) by lia.
    by rewrite bool_decide_eq_true_2 by lia.
Qed.

Lemma payload_ceiling_edges_witness :
  Relay._parse_payload (λ _, Ok (VDict [])) "" (Some (-1)%Z)
  = ([], Raise (PayloadLimit (-1))).
Proof.
  refine (proj2 (proj2 (payload_ceiling_edges (λ _, Ok (VDict [])) "")) (-1)%Z _).
  lia.
Defined.

(** X11. A payload within the ceiling is accepted exactly when
    [json.loads] returns an object, and that object is the result; when it
    returns anything else the payload error is raised, and an exception of
    the parser is passed on.  The empty payload is parsed as [{}]. *)
Theorem payload_shape (json_loads : string → result value)
    (payload_str : string) (max_bytes : Z) :
  (Z.of_nat (String.length payload_str) ≤ max_bytes)%Z →
  (∀ d, (Relay._parse_payload json_loads payload_str (Some max_bytes)).2 = Ok d
        ↔ json_loads (payload_text payload_str) = Ok (VDict d))
  ∧ (∀ parsed, json_loads (payload_text payload_str) = Ok parsed →
       is_dict parsed = false →
       (Relay._parse_payload json_loads payload_str (Some max_bytes)).2
       = Raise PayloadNotObject)
  ∧ (∀ e, json_loads (payload_text payload_str) = Raise e →
       (Relay._parse_payload json_loads payload_str (Some max_bytes)).2 = Raise e)
  ∧ payload_text "" = "{}".
Proof.
  intros Hshort.
  assert ((Relay._parse_payload json_loads payload_str (Some max_bytes)).2
          = (parsed ← json_loads (payload_text payload_str);
             match parsed with
             | VDict d => Ok d
             | _ => Raise PayloadNotObject
             end)) as ->.
  { unfold Relay._parse_payload. rewrite bool_decide_eq_false_2 by lia.
    by rewrite andb_false_r. }
  split_and!; [| | |done].
  - intros d. destruct (json_loads (payload_text payload_str)) as [[]|e|]; simpl;
      split; intros H; by simplify_eq.
  - intros parsed -> Hshape. by destruct parsed.
  - by intros e ->.
Qed.

Lemma payload_shape_witness :
  (Relay._parse_payload (λ _, Ok (VList [])) "[]" (Some 10%Z)).2
  = Raise PayloadNotObject.
Proof.
  refine (proj1 (proj2 (payload_shape (λ _, Ok (VList [])) "[]" 10%Z _))
            (VList []) _ _).
  - vm_compute. discriminate.
  - reflexivity.
  - reflexivity.
Defined.

Section executor_facts.
Import Executor.
Variable py_str : value → string.

Definition first_blocker_action (payload : dict) : list value :=
  match _coerce_list py_str (py_get payload "blockers") with
  | b :: _ => [VStr ("Resolve blocker: " +:+ b)]
  | [] => []
  end.

Definition first_objective_action (payload : dict) : list value :=
  match _coerce_list py_str (py_get payload "objectives") with
  | o :: _ => [VStr ("Advance objective: " +:+ o)]
  | [] => []
  end.

Lemma advisory_inv (policies payload : dict) (adv : Advisory) :
  _generate_advisory py_str policies payload = Ok adv →
  ∃ parts defaults,
    str_parts 0
      ([py_get_default policies "summary_prefix" (VStr "Advisor Insight");
        py_or (py_get payload "context") (VStr "No additional context supplied.")]
       ++ match _coerce_list py_str (py_get payload "objectives") with
          | o :: _ => [VStr ("Core objective: " +:+ o)]
          | [] => []
          end)
    = Ok parts
    ∧ py_iter (py_get_default policies "default_actions" (VList [])) = Ok defaults
    ∧ summary adv = str_join " — " parts
    ∧ recommended_actions adv
      = match defaults ++ first_blocker_action payload
                       ++ first_objective_action payload with
        | [] => [VStr "Document a concrete next step."]
        | _ => defaults ++ first_blocker_action payload
                        ++ first_objective_action payload
        end.
Proof.
  unfold _generate_advisory. intros H.
  apply bind_inv_Ok in H as (parts & Hparts & H).
  apply bind_inv_Ok in H as (defaults & Hdefaults & H).
  injection H as <-. by exists parts, defaults.
Qed.

Lemma str_parts_inv (index : nat) (parts : list value) (ss : list string) :
  str_parts index parts = Ok ss → parts = VStr <$> ss.
Proof.
  revert index ss. induction parts as [|v parts IH]; intros index ss H; simpl in H.
  { by injection H as <-. }
  destruct v as [| | | |s| |]; try done.
  apply bind_inv_Ok in H as (ss' & Hss' & H). injection H as <-.
  by rewrite (IH (S index) ss').
Qed.

Lemma str_parts_not_str (index : nat) (parts : list value) (v : value) :
  v ∈ parts → (∀ s, v ≠ VStr s) →
  ∃ e, str_parts index parts = Raise e ∧ exn_class_of e = TypeError.
Proof.
  revert index. induction parts as [|x parts IH]; intros index Hin Hv.
  { by apply elem_of_nil in Hin. }
  destruct x as [| | | |s| |]; try (eexists; split; [reflexivity|done]).
  apply elem_of_cons in Hin as [->|Hin]; [by destruct (Hv s)|].
  destruct (IH (S index) Hin Hv) as (e & He & Hcls). exists e. simpl. by rewrite He.
Qed.

End executor_facts.

(** X12. An advisory never has an empty list of recommended actions.
    The list is the policy's default actions, then the action for the
    first blocker, then the action for the first objective; the fixed
    fallback action stands alone exactly when all three are missing. *)
Theorem recommended_actions_never_empty (py_str : value → string)
    (policies payload : dict) (adv : Executor.Advisory) :
  Executor._generate_advisory py_str policies payload = Ok adv →
  Executor.recommended_actions adv ≠ []
  ∧ ∃ defaults,
      py_iter (py_get_default policies "default_actions" (VList [])) = Ok defaults
      ∧ let actions := defaults ++ first_blocker_action py_str payload
                                ++ first_objective_action py_str payload in
        (actions ≠ [] → Executor.recommended_actions adv = actions)
        ∧ (actions = [] →
           Executor.recommended_actions adv
           = [VStr "Document a concrete next step."]).
Proof.
  intros H. apply advisory_inv in H as (parts & defaults & _ & Hdefaults & _ & ->).
  split.
  - by destruct (defaults ++ _ ++ _).
  - exists defaults. split; [done|]. simpl.
    destruct (defaults ++ _ ++ _); by split.
Qed.

Lemma recommended_actions_never_empty_witness :
  ∃ adv,
    Executor._generate_advisory str_of [] [] = Ok adv
    ∧ Executor.recommended_actions adv ≠ [].
Proof.
  eexists. split; [vm_compute; reflexivity|].
  refine (proj1 (recommended_actions_never_empty str_of [] [] _ _)).
  vm_compute. reflexivity.
Defined.

(** X13. The summary of an advisory is the summary prefix of the policy
    (or its default), the context of the payload (or its default) and, with
    an objective, the first objective, joined by the separator.  When the
    prefix or the context is not a string no advisory is made: a
    [TypeError] is raised. *)
Theorem advisory_summary (py_str : value → string) (policies payload : dict) :
  let prefix := py_get_default policies "summary_prefix" (VStr "Advisor Insight") in
  let context :=
    py_or (py_get payload "context") (VStr "No additional context supplied.") in
  (∀ adv, Executor._generate_advisory py_str policies payload = Ok adv →
     ∃ p c, prefix = VStr p ∧ context = VStr c
       ∧ Executor.summary adv
         = match Executor._coerce_list py_str (py_get payload "objectives") with
           | o :: _ => p +:+ " — " +:+ c +:+ " — " +:+ "Core objective: " +:+ o
           | [] => p +:+ " — " +:+ c
           end)
  ∧ ((∀ s, prefix ≠ VStr s) ∨ (∀ s, context ≠ VStr s) →
     ∃ e, Executor._generate_advisory py_str policies payload = Raise e
          ∧ exn_class_of e = TypeError).
Proof.
  intros prefix context. split.
  - intros adv H.
    apply advisory_inv in H as (parts & defaults & Hparts & _ & -> & _).
    fold prefix context in Hparts. apply str_parts_inv in Hparts.
    destruct (Executor._coerce_list py_str (py_get payload "objectives")) as [|o ?];
      simpl in Hparts.
    + destruct parts as [|p [|c [|? ?]]]; simplify_eq/=. by exists p, c.
    + destruct parts as [|p [|c [|o' [|? ?]]]]; simplify_eq/=. by exists p, c.
  - intros Hbad. unfold Executor._generate_advisory. fold prefix context.
    match goal with |- context [Executor.str_parts 0 ?l] =>
      assert (∃ e, Executor.str_parts 0 l = Raise e ∧ exn_class_of e = TypeError)
        as (e & -> & Hcls)
    end.
    { destruct Hbad as [Hp|Hc].
      - apply (str_parts_not_str _ _ prefix); [apply list_elem_of_here | done].
      - apply (str_parts_not_str _ _ context); [|done].
        apply list_elem_of_further, list_elem_of_here. }
    by exists e.
Qed.

Lemma advisory_summary_witness :
  ∃ e, Executor._generate_advisory str_of [("summary_prefix", VInt 7)] [] = Raise e
       ∧ exn_class_of e = TypeError.
Proof.
  refine (proj2 (advisory_summary str_of [("summary_prefix", VInt 7)] []) _).
  left. intros s. discriminate.
Defined.

(** X14. An executor is made only of a stack that is a non-empty mapping
    whose [agents] entry is true in Python's sense: an empty stack, and a
    stack whose agents are missing, null or an empty list, raise a
    [ValueError].  With a list of agents the executor is bound to the first
    one, and absent policies count as the empty mapping. *)
Theorem executor_needs_an_agent (stack : dict) (policies : value) :
  CodexExecutor.__init__ (VDict []) policies
  = Raise (PyError ValueError "Stack configuration cannot be empty.")
  ∧ (stack ≠ [] → truthy (py_get stack "agents") = false →
     CodexExecutor.__init__ (VDict stack) policies
     = Raise (PyError ValueError "Stack must declare at least one agent."))
  ∧ (∀ first rest, py_get stack "agents" = VList (first :: rest) →
       CodexExecutor.__init__ (VDict stack) policies
       = Ok {| CodexExecutor.stack_config := VDict stack;
               CodexExecutor.policies := py_or policies (VDict []);
               CodexExecutor.agent := first |})
  ∧ (∀ self, CodexExecutor.__init__ (VDict stack) policies = Ok self →
       truthy (py_get stack "agents") = true
       ∧ CodexExecutor.py_first (py_get stack "agents")
         = Ok (CodexExecutor.agent self)).
Proof.
  split_and!.
  - reflexivity.
  - intros Hne Hagents. unfold CodexExecutor.__init__.
    assert (truthy (VDict stack) = true) as -> by (by destruct stack).
    simpl. unfold py_or. by rewrite Hagents.
  - intros first rest Hagents. unfold CodexExecutor.__init__.
    assert (truthy (VDict stack) = true) as ->.
    { destruct stack; [|done]. discriminate Hagents. }
    simpl. by rewrite Hagents.
  - intros self H. unfold CodexExecutor.__init__ in H.
    destruct (truthy (VDict stack)); [|done]. simpl in H. unfold py_or in H.
    destruct (truthy (py_get stack "agents")) eqn:Hagents;
      simpl in H; rewrite ?Hagents in H; simpl in H; [|done].
    apply bind_inv_Ok in H as (first & Hfirst & H). injection H as <-. done.
Qed.

Lemma executor_needs_an_agent_witness :
  CodexExecutor.__init__ (VDict [("agents", VList []); ("meta", VStr "m")]) VNone
  = Raise (PyError ValueError "Stack must declare at least one agent.").
Proof.
  refine (proj1 (proj2 (executor_needs_an_agent
            [("agents", VList []); ("meta", VStr "m")] VNone)) _ _).
  - discriminate.
  - reflexivity.
Defined.

(** X15. A run normalizes the payload before anything else: null counts
    as the empty object, and a payload that is neither an object nor null
    raises a [TypeError], whatever the stack and the policies.  The result
    of a run carries the normalized payload and, as advice, the fields of
    the advisory generated for it under the executor's policies. *)
Theorem run_normalizes_payload (py_str : value → string) (now : string)
    (self : CodexExecutor.executor) :
  CodexExecutor.run py_str now self VNone
  = CodexExecutor.run py_str now self (VDict [])
  ∧ (∀ payload, payload ≠ VNone → is_dict payload = false →
       CodexExecutor.run py_str now self payload
       = Raise (PyError TypeError "Payload must decode to a JSON object."))
  ∧ (∀ payload report,
       CodexExecutor.run py_str now self (VDict payload) = Ok report →
       ∃ policies adv,
         CodexExecutor.policies self = VDict policies
         ∧ Executor._generate_advisory py_str policies payload = Ok adv
         ∧ dict_get report "payload" = Some (VDict payload)
         ∧ dict_get report "advice" = Some (VDict (CodexExecutor.as_dict adv))
         ∧ keys report
           = ["meta"; "routing"; "cfms_invariants"; "payload"; "advice"]).
Proof.
  split_and!.
  - reflexivity.
  - intros payload Hnone Hshape. by destruct payload.
  - intros payload report H. unfold CodexExecutor.run in H. simpl in H.
    destruct (CodexExecutor.policies self) as [| | | | | |policies]; try done.
    apply bind_inv_Ok in H as (adv & Hadv & H).
    apply bind_inv_Ok in H as (agent_name & _ & H).
    apply bind_inv_Ok in H as (model & _ & H).
    apply bind_inv_Ok in H as (routing & _ & H).
    apply bind_inv_Ok in H as (cfms & _ & H).
    injection H as <-. by exists policies, adv.
Qed.

Lemma run_normalizes_payload_witness :
  CodexExecutor.run str_of "2024-01-01T00:00:00+00:00"
    {| CodexExecutor.stack_config := VDict [("agents", VList [VDict []])];
       CodexExecutor.policies := VDict [];
       CodexExecutor.agent := VDict [] |}
    (VList [VInt 1])
  = Raise (PyError TypeError "Payload must decode to a JSON object.").
Proof.
  refine (proj1 (proj2 (run_normalizes_payload str_of "2024-01-01T00:00:00+00:00" _))
            (VList [VInt 1]) _ _).
  - discriminate.
  - reflexivity.
Defined.

(** ** codex_utils.py: loading a YAML mapping *)

(** X16. What [load_yaml] returns is a mapping.  A file that is not
    there gives the empty mapping, or with [required] an error; an empty
    document gives the empty mapping; a document that is no mapping raises
    the shape error.  On a file that [load_yaml] accepts, the relay's own
    [_load_yaml] returns the same. *)
Theorem load_yaml_returns_mapping (fs : Relay.filesystem) (path : string)
    (required : bool) :
  (∀ data, Utils.load_yaml (Relay.files fs) path required = Ok data →
     is_dict data = true
     ∧ (is_Some (Relay.files fs !! path) → Relay._load_yaml fs path = Ok data))
  ∧ (Relay.files fs !! path = None →
     Utils.load_yaml (Relay.files fs) path required
     = if required then Raise (YamlMissing path) else Ok (VDict []))
  ∧ (∀ content, Relay.files fs !! path = Some (YamlDoc content) →
       truthy content = false →
       Utils.load_yaml (Relay.files fs) path required = Ok (VDict []))
  ∧ (∀ content, Relay.files fs !! path = Some (YamlDoc content) →
       truthy content = true → is_dict content = false →
       Utils.load_yaml (Relay.files fs) path required
       = Raise (YamlNotMapping path)).
Proof.
  split_and!.
  - intros data H. unfold Utils.load_yaml, Relay._load_yaml in *.
    destruct (Relay.files fs !! path) as [[content|]|]; try done.
    + destruct (is_dict (py_or content (VDict []))) eqn:Hshape; [|done].
      injection H as <-. by split.
    + destruct required; [done|]. injection H as <-.
      split; [done|]. by intros [? ?].
  - intros Hfile. unfold Utils.load_yaml. by rewrite Hfile.
  - intros content Hfile Hfalse. unfold Utils.load_yaml, py_or.
    by rewrite Hfile, Hfalse.
  - intros content Hfile Htrue Hshape. unfold Utils.load_yaml, py_or.
    by rewrite Hfile, Htrue, Hshape.
Qed.

Lemma load_yaml_returns_mapping_witness :
  Utils.load_yaml (Relay.files list_doc_fs) "/app/stacks/gone.yaml" true
  = Raise (YamlMissing "/app/stacks/gone.yaml").
Proof.
  refine (proj1 (proj2 (load_yaml_returns_mapping list_doc_fs
            "/app/stacks/gone.yaml" true)) _).
  vm_compute. reflexivity.
Defined.

(** ** Redaction: nothing sensitive is left, nothing else is touched *)

Definition is_marker (v : value) : bool :=
  match v with
  | VStr s => String.eqb s "***REDACTED***"
  | _ => false
  end.

(** Some mapping inside [v], at any depth of mappings and lists, holds
    a sensitive key with something else than the marker. *)
Fixpoint exposes (ks : list string) (v : value) : bool :=
  match v with
  | VDict d =>
      existsb
        (λ kv, if decide (kv.1 ∈ ks) then negb (is_marker kv.2) else exposes ks kv.2)
        d
  | VList l => existsb (exposes ks) l
  | _ => false
  end.

Section redact_more.
Import Utils.
Variable ks : list string.

Lemma existsb_false_Forall {A : Type} (f : A → bool) (l : list A) :
  Forall (λ x, f x = false) l → existsb f l = false.
Proof. induction 1 as [|x l Hx _ IH]; simpl; [done|]. by rewrite Hx, IH. Qed.

Lemma redact_exposes_nothing (v : value) : exposes ks (redact v ks) = false.
Proof.
  induction v as [| | | | |l IH|d IH] using value_rect_nested; try reflexivity.
  - simpl. apply existsb_false_Forall. rewrite List.Forall_map. exact IH.
  - rewrite redact_dict_eq. cbn [exposes]. apply existsb_false_Forall.
    apply (fold_dict_set_invariant
             (λ kv, (if decide (kv.1 ∈ ks) then negb (is_marker kv.2)
                     else exposes ks kv.2) = false)
             (redact_step ks) (redact_item ks) d [] (redact_step_set ks)).
    + apply NoDup_nil_2.
    + constructor.
    + eapply Forall_impl; [exact IH|]. intros [k x] Hx. unfold redact_item.
      simpl in *. by case_decide.
Qed.

Lemma redact_nothing (v : value) : distinct_keys v = true → redact v [] = v.
Proof.
  induction v as [| | | | |l IH|d IH] using value_rect_nested; try reflexivity.
  - simpl. intros Hwf. rewrite List.forallb_forall in Hwf. f_equal.
    rewrite <- (map_id l) at 2. apply map_ext_Forall.
    rewrite Forall_forall in IH |- *. intros x Hx. apply IH; [done|].
    apply Hwf. by apply list_elem_of_In.
  - simpl distinct_keys. intros Hwf. apply andb_true_iff in Hwf as [Hnd Hsub].
    apply bool_decide_eq_true_1 in Hnd. rewrite List.forallb_forall in Hsub.
    rewrite (redact_dict_nodup []) by done. f_equal.
    rewrite <- (map_id d) at 2. apply map_ext_Forall.
    rewrite Forall_forall in IH |- *. intros [k x] Hin. unfold redact_item.
    cbn [fst snd]. destruct (decide (k ∈ [])) as [Hk|_].
    { by apply elem_of_nil in Hk. }
    f_equal. apply (IH (k, x) Hin). apply (Hsub (k, x)). by apply list_elem_of_In.
Qed.

End redact_more.

(** X17. After redaction no mapping, at any depth of mappings and lists,
    holds a sensitive key with anything but the marker; this for every
    value and every list of keys. *)
Theorem redact_leaves_nothing_sensitive (v : value) (ks : list string) :
  exposes ks (Utils.redact v ks) = false.
Proof. apply redact_exposes_nothing. Qed.

(** X18. Redaction keeps the shape: a mapping keeps its keys in their
    order, a list its length; and with no sensitive keys the value comes
    back as it was. *)
Theorem redact_keeps_shape (ks : list string) :
  (∀ d : dict, NoDup (keys d) →
     ∃ d', Utils.redact (VDict d) ks = VDict d' ∧ keys d' = keys d)
  ∧ (∀ l, ∃ l', Utils.redact (VList l) ks = VList l' ∧ length l' = length l)
  ∧ (∀ v, distinct_keys v = true → Utils.redact v [] = v).
Proof.
  split_and!.
  - intros d Hnd. rewrite redact_dict_nodup by done. eexists. split; [done|].
    unfold keys. rewrite <- list_fmap_compose. done.
  - intros l. eexists. split; [reflexivity|]. by rewrite length_map.
  - apply redact_nothing.
Qed.

Lemma redact_keeps_shape_witness :
  Utils.redact redact_example [] = redact_example.
Proof.
  refine (proj2 (proj2 (redact_keeps_shape [])) redact_example _).
  vm_compute. reflexivity.
Defined.

(** ** The digest: which directories, how many records, in what order *)

Lemma mapM_ext {A B : Type} (f g : A → result B) (l : list A) :
  (∀ x, x ∈ l → f x = g x) → mapM f l = mapM g l.
Proof.
  induction l as [|x l IH]; intros Hfg; simpl; [done|].
  rewrite Hfg by apply list_elem_of_here.
  rewrite IH; [done|]. intros y Hy. apply Hfg. by apply list_elem_of_further.
Qed.

Section digest_more.
Import Digest.

Global Instance path_le_antisymm : AntiSymm (=) path_le.
Proof.
  intros p. unfold path_le. induction p as [|a p IH]; intros [|b q]; simpl; try done.
  destruct (decide (a = b)) as [->|Hab].
  - rewrite decide_True by done. intros H1 H2. f_equal. by apply IH.
  - rewrite decide_False by congruence.
    intros H1%bool_decide_unpack H2%bool_decide_unpack.
    destruct Hab. by apply (anti_symm String.le).
Qed.

Global Instance path_ge_antisymm : AntiSymm (=) path_ge.
Proof. intros p q Hpq Hqp. unfold path_ge in *. by apply (anti_symm path_le). Qed.

Lemma sorted_reverse_perm_eq (l1 l2 : list (list string)) :
  l1 ≡ₚ l2 → sorted_reverse l1 = sorted_reverse l2.
Proof.
  intros Hperm. unfold sorted_reverse.
  apply (Sorted_unique path_ge); [apply Sorted_merge_sort, _ .. |].
  by rewrite !merge_sort_Permutation.
Qed.

Lemma entry_elem_of (entries : list (string * node)) (name : string) (x : node) :
  NoDup entries.*1 → (name, x) ∈ entries → entry entries name = Some x.
Proof.
  induction entries as [|[n y] entries IH]; intros Hnd Hin.
  { by apply elem_of_nil in Hin. }
  rewrite fmap_cons in Hnd. apply NoDup_cons in Hnd as [Hn Hnd]. simpl in *.
  apply elem_of_cons in Hin as [[= -> ->]|Hin].
  - by rewrite decide_True.
  - destruct (decide (n = name)) as [->|Hne]; [|by apply IH].
    destruct Hn. apply list_elem_of_fmap. by exists (name, x).
Qed.

Lemma entry_Some_elem_of (entries : list (string * node)) (name : string) (x : node) :
  entry entries name = Some x → (name, x) ∈ entries.
Proof.
  induction entries as [|[n y] entries IH]; simpl; [done|].
  destruct (decide (n = name)) as [->|Hne].
  - intros [= ->]. apply list_elem_of_here.
  - intros H. by apply list_elem_of_further, IH.
Qed.

Lemma entry_None (entries : list (string * node)) (name : string) :
  entry entries name = None ↔ name ∉ entries.*1.
Proof.
  induction entries as [|[n y] entries IH]; simpl.
  - split; [intros _; apply not_elem_of_nil | done].
  - rewrite not_elem_of_cons. destruct (decide (n = name)) as [->|Hne].
    + split; [done | intros [? _]; done].
    + rewrite IH. split; [intros ?; split; [congruence | done] | intros [_ ?]; done].
Qed.

Lemma entry_perm (entries entries' : list (string * node)) (name : string) :
  NoDup entries.*1 → entries ≡ₚ entries' →
  entry entries' name = entry entries name.
Proof.
  intros Hnd Hperm.
  assert (NoDup entries'.*1) as Hnd' by (by rewrite <- Hperm).
  destruct (entry entries name) as [x|] eqn:Hentry.
  - apply entry_elem_of; [done|]. rewrite <- Hperm. by apply entry_Some_elem_of.
  - apply entry_None. rewrite <- Hperm. by apply entry_None.
Qed.

Lemma load_json_perm (entries entries' : list (string * node)) (path : list string) :
  NoDup entries.*1 → entries ≡ₚ entries' → path ≠ [] →
  _load_json (Dir entries') path = _load_json (Dir entries) path.
Proof.
  intros Hnd Hperm Hpath. unfold _load_json. destruct path as [|name rest]; [done|].
  simpl. by rewrite (entry_perm entries entries').
Qed.

Lemma collect_one_perm (entries entries' : list (string * node))
    (run_path : list string) :
  NoDup entries.*1 → entries ≡ₚ entries' →
  collect_one (Dir entries') run_path = collect_one (Dir entries) run_path.
Proof.
  intros Hnd Hperm. unfold collect_one.
  rewrite !(load_json_perm entries entries') by (done || by destruct run_path).
  done.
Qed.

Lemma candidates_elem_of (entries : list (string * node)) (p : list string) :
  p ∈ candidates entries ↔
    (∃ name sub, p = [name] ∧ (name, Dir sub) ∈ entries
                 ∧ is_Some (entry sub "relay.json"))
    ∨ (∃ name sub nested x,
         p = [name; nested] ∧ (name, Dir sub) ∈ entries
         ∧ entry sub "relay.json" = None ∧ (nested, Dir x) ∈ sub).
Proof.
  unfold candidates. rewrite list_elem_of_In, in_flat_map. split.
  - intros ([name [content|sub]] & Hin%list_elem_of_In & Hp); [done|].
    destruct (entry sub "relay.json") as [x|] eqn:Hrelay.
    + left. destruct Hp as [<-|[]]. exists name, sub. eauto.
    + right. apply in_flat_map in Hp as ([nested [c|x]] & Hn%list_elem_of_In & Hp);
        [done|]. destruct Hp as [<-|[]]. exists name, sub, nested, x. eauto.
  - intros [(name & sub & -> & Hin & [x Hx])|(name & sub & nested & x & -> & Hin & Hr & Hn)].
    + exists (name, Dir sub). split; [by apply list_elem_of_In|].
      rewrite Hx. by left.
    + exists (name, Dir sub). split; [by apply list_elem_of_In|].
      rewrite Hr. apply in_flat_map. exists (nested, Dir x).
      split; [by apply list_elem_of_In | by left].
Qed.

End digest_more.

(** X19. The run directories the digest considers are the directories
    directly below [runs] that hold a [relay.json], and, for every other
    directory below [runs], its subdirectories, with or without a
    [relay.json]; nothing deeper, and no files. *)
Theorem digest_candidates (entries : list (string * Digest.node))
    (p : list string) :
  p ∈ Digest.candidates entries ↔
    (∃ name sub, p = [name] ∧ (name, Digest.Dir sub) ∈ entries
                 ∧ is_Some (Digest.entry sub "relay.json"))
    ∨ (∃ name sub nested x,
         p = [name; nested] ∧ (name, Digest.Dir sub) ∈ entries
         ∧ Digest.entry sub "relay.json" = None
         ∧ (nested, Digest.Dir x) ∈ sub).
Proof. apply candidates_elem_of. Qed.

(** X20. A digest has one record for each candidate without a limit;
    with a limit that is not negative, the lesser of the limit and the
    number of candidates; and with a negative limit, as many as are left
    when that many are dropped from the end. *)
Theorem digest_record_count (vault : Digest.node)
    (entries : list (string * Digest.node)) (limit : option Z)
    (records : list Digest.DigestRecord) :
  Digest.child vault "runs" = Some (Digest.Dir entries) →
  Digest._collect_runs vault limit = Ok records →
  length records =
    match limit with
    | None => length (Digest.candidates entries)
    | Some n =>
        if decide (0 ≤ n)%Z
        then Z.to_nat n `min` length (Digest.candidates entries)
        else length (Digest.candidates entries) - Z.to_nat (- n)
    end.
Proof.
  intros Hruns H. unfold Digest._collect_runs in H. rewrite Hruns in H.
  apply mapM_inv, Forall2_length in H. rewrite <- H.
  pose proof (Permutation_length (sorted_reverse_perm (Digest.candidates entries)))
    as Hlen.
  unfold Digest.selected, Digest.slice_to. destruct limit as [n|]; [|done].
  case_decide; rewrite length_take, Hlen; lia.
Qed.

Lemma digest_record_count_witness :
  ∃ records,
    Digest._collect_runs flat_vault (Some (-8)%Z) = Ok records
    ∧ length records = 2.
Proof.
  eexists. split; [vm_compute; reflexivity|].
  refine (digest_record_count flat_vault flat_runs (Some (-8)%Z) _ _ _);
    vm_compute; reflexivity.
Defined.

(** X21. The digest does not depend on the order in which the system
    lists the entries of [runs], their names being all different. *)
Theorem digest_order_independent (vault vault' : Digest.node)
    (entries entries' : list (string * Digest.node)) (limit : option Z) :
  Digest.child vault "runs" = Some (Digest.Dir entries) →
  Digest.child vault' "runs" = Some (Digest.Dir entries') →
  NoDup entries.*1 → entries ≡ₚ entries' →
  Digest._collect_runs vault' limit = Digest._collect_runs vault limit.
Proof.
  intros Hruns Hruns' Hnd Hperm. unfold Digest._collect_runs.
  rewrite Hruns, Hruns'.
  assert (Digest.selected entries' limit = Digest.selected entries limit) as ->.
  { unfold Digest.selected.
    rewrite (sorted_reverse_perm_eq (Digest.candidates entries')
               (Digest.candidates entries)); [done|].
    unfold Digest.candidates. by rewrite Hperm. }
  apply mapM_ext. intros p _. by apply collect_one_perm.
Qed.

Lemma digest_order_independent_witness :
  Digest._collect_runs (Digest.Dir [("runs", Digest.Dir (reverse logger_runs))]) None
  = Digest._collect_runs logger_vault None.
Proof.
  refine (digest_order_independent logger_vault _ logger_runs (reverse logger_runs)
            None _ _ _ _).
  - reflexivity.
  - reflexivity.
  - apply (bool_decide_unpack _). vm_compute. exact I.
  - by rewrite reverse_Permutation.
Defined.

(** X22. Without a [runs] directory the digest is empty.  With one, the
    digest is made exactly when the artifacts of every run directory it
    reads decode (the report and the evaluation to objects): one artifact
    that does not makes the whole digest raise, and the run directories
    that the limit cuts off are not read. *)
Theorem digest_succeeds_iff (vault : Digest.node) (limit : option Z) :
  (Digest.child vault "runs" = None → Digest._collect_runs vault limit = Ok [])
  ∧ (∀ entries, Digest.child vault "runs" = Some (Digest.Dir entries) →
       (∃ records, Digest._collect_runs vault limit = Ok records)
       ↔ Forall (run_store_ok (Digest.Dir entries))
           (Digest.selected entries limit)).
Proof.
  split.
  - intros Hruns. unfold Digest._collect_runs. by rewrite Hruns.
  - intros entries Hruns. split.
    + intros [records H]. unfold Digest._collect_runs in H. rewrite Hruns in H.
      apply mapM_inv in H. apply Forall_forall. intros p Hp.
      apply list_elem_of_lookup in Hp as [i Hi].
      destruct (Forall2_lookup_l _ _ _ _ _ H Hi) as (record & _ & Hone).
      apply collect_one_inv in Hone
        as (relay & evaluation & logger & count & ? & ? & ? & ? & _).
      by exists relay, evaluation, logger, count.
    + intros Hok. destruct (collect_runs_Ok vault entries limit Hruns Hok)
        as (records & Hrecords & _). by exists records.
Qed.

(** A vault whose older run directory has a report that does not
    decode. *)
Definition broken_runs : list (string * Digest.node) :=
  [("run-1", Digest.Dir [("relay.json", Digest.File JsonSyntaxError)]);
   ("run-2", run_store "b" [])].

Lemma digest_succeeds_iff_witness :
  ∃ records,
    Digest._collect_runs (Digest.Dir [("runs", Digest.Dir broken_runs)]) (Some 1%Z)
    = Ok records.
Proof.
  refine (proj2 (proj2 (digest_succeeds_iff
            (Digest.Dir [("runs", Digest.Dir broken_runs)]) (Some 1%Z))
            broken_runs _) _).
  - reflexivity.
  - repeat (constructor; [do 4 eexists; split_and!; vm_compute; reflexivity|]).
    constructor.
Defined.

Section logger_facts.
Import Digest Logger.
Variable py_str : value → string.
Variable now : string.
Variable environment : dict.

Lemma entry_set_eq (entries : list (string * node)) (name : string) (x : node) :
  entry (entry_set entries name x) name = Some x.
Proof.
  induction entries as [|[n y] entries IH]; simpl.
  - by rewrite decide_True.
  - destruct (decide (n = name)) as [->|Hne]; simpl.
    + by rewrite decide_True.
    + by rewrite decide_False.
Qed.

Lemma entry_set_ne (entries : list (string * node)) (name other : string) (x : node) :
  name ≠ other → entry (entry_set entries name x) other = entry entries other.
Proof.
  intros Hne. induction entries as [|[n y] entries IH]; simpl.
  - by rewrite decide_False.
  - destruct (decide (n = name)) as [->|Hn]; simpl.
    + by rewrite !decide_False.
    + destruct (decide (n = other)); auto.
Qed.

Lemma entry_set_twice (entries : list (string * node)) (name : string) (x y : node) :
  entry_set (entry_set entries name x) name y = entry_set entries name y.
Proof.
  induction entries as [|[n z] entries IH]; simpl.
  - by rewrite decide_True.
  - destruct (decide (n = name)) as [->|Hn]; simpl.
    + by rewrite decide_True.
    + rewrite decide_False by done. by rewrite IH.
Qed.

(** [_load_json] on a file of a run directory directly below [runs]. *)
Lemma load_json_in_run (name : string) (entries : list (string * node))
    (file : string) :
  _load_json (Dir [(name, Dir entries)]) ([name] ++ [file])
  = match entry entries file with
    | None => Ok (VDict [])
    | Some (Dir _) => Raise (PyError IsADirectoryError (str_join "/" [name; file]))
    | Some (File JsonSyntaxError) =>
        Raise (PyError JSONDecodeError (str_join "/" [name; file]))
    | Some (File (JsonDoc content)) => Ok content
    end.
Proof.
  unfold _load_json. cbn [at_path child entry app].
  rewrite decide_True by done. cbn [at_path child].
  by destruct (entry entries file).
Qed.

(** What [main] has gone through when it returns. *)
Lemma main_inv (files : gmap string yaml_file) (policy_path run_dir : string)
    (run : node) (record_env : bool) (run' : node) (record : dict) :
  main py_str now environment files policy_path run_dir run record_env
  = Ok (run', record) →
  ∃ entries relay config policies redact_keys names,
    run = Dir entries
    ∧ entry entries "relay.json" = Some (File (JsonDoc (VDict relay)))
    ∧ Utils.load_yaml files policy_path false = Ok config
    ∧ py_attr_get_default config "logger" (VDict []) = Ok policies
    ∧ py_attr_get_default policies "redact_keys" (VList []) = Ok redact_keys
    ∧ py_iter (py_or redact_keys (VList [])) = Ok names
    ∧ (∀ blocked, entry entries "logger.json" ≠ Some (Dir blocked))
    ∧ run' = Dir (entry_set entries "logger.json" (File (JsonDoc (VDict record))))
    ∧ record =
        (let base :=
           [("timestamp", VStr now);
            ("run_dir", VStr run_dir);
            ("persona", py_get relay "persona");
            ("role", py_get relay "role");
            ("pipeline", py_get relay "pipeline");
            ("payload",
             Utils.redact (py_get_default relay "payload" (VDict []))
               (py_str <$> names));
            ("outputs", py_get relay "outputs")] in
         if record_env then dict_set base "environment" (VDict environment)
         else base).
Proof.
  unfold main. intros H.
  destruct run as [content|entries]; [done|]. simpl in H.
  destruct (entry entries "relay.json") as [[[relay_data|]|]|] eqn:Hrelay; try done.
  apply bind_inv_Ok in H as (config & Hconfig & H).
  apply bind_inv_Ok in H as (policies & Hpolicies & H).
  apply bind_inv_Ok in H as (redact_keys & Hkeys & H).
  destruct relay_data as [| | | | | |relay]; try done. simpl in H.
  unfold redact_with in H.
  apply bind_inv_Ok in H as (sanitized & Hsan & H).
  apply bind_inv_Ok in Hsan as (names & Hnames & Hsan). injection Hsan as <-.
  destruct (entry entries "logger.json") as [[c|blocked]|] eqn:Hlogger; try done;
    injection H as <- <-;
    exists entries, relay, config, policies, redact_keys, names;
    split_and!; try done; intros blocked'; by rewrite Hlogger.
Qed.

End logger_facts.

(** X23. The logger needs the relay's report: without [relay.json] in
    the run directory it raises [FileNotFoundError].  In the record it
    writes, the payload holds no key of the policy's [redact_keys] with
    anything but the marker, at any depth; the persona, the role, the
    pipeline and the outputs are those of the report, as they are. *)
Theorem logger_record_is_redacted (py_str : value → string) (now : string)
    (environment : dict) (files : gmap string yaml_file)
    (policy_path run_dir : string) (run : Digest.node) (record_env : bool) :
  (Digest.child run "relay.json" = None →
   Logger.main py_str now environment files policy_path run_dir run record_env
   = Raise (PyError FileNotFoundError
              ("Relay output " +:+ run_dir +:+ "/relay.json not found.")))
  ∧ (∀ run' record,
       Logger.main py_str now environment files policy_path run_dir run record_env
       = Ok (run', record) →
       ∃ relay config policies redact_keys names,
         Digest.child run "relay.json"
         = Some (Digest.File (JsonDoc (VDict relay)))
         ∧ Utils.load_yaml files policy_path false = Ok config
         ∧ py_attr_get_default config "logger" (VDict []) = Ok policies
         ∧ py_attr_get_default policies "redact_keys" (VList []) = Ok redact_keys
         ∧ py_iter (py_or redact_keys (VList [])) = Ok names
         ∧ exposes (py_str <$> names) (py_get record "payload") = false
         ∧ py_get record "persona" = py_get relay "persona"
         ∧ py_get record "role" = py_get relay "role"
         ∧ py_get record "pipeline" = py_get relay "pipeline"
         ∧ py_get record "outputs" = py_get relay "outputs").
Proof.
  split.
  - intros Hrelay. unfold Logger.main. by rewrite Hrelay.
  - intros run' record H.
    apply main_inv in H
      as (entries & relay & config & policies & redact_keys & names
          & -> & Hrelay & Hconfig & Hpolicies & Hkeys & Hnames & _ & _ & ->).
    exists relay, config, policies, redact_keys, names.
    split_and!; try done.
    + destruct record_env; apply redact_exposes_nothing.
    + by destruct record_env.
    + by destruct record_env.
    + by destruct record_env.
    + by destruct record_env.
Qed.

(** The policy file of the examples, and a run directory whose report
    carries a token. *)
Definition policy_files : gmap string yaml_file :=
  list_to_map
    [("/app/config/policies.yaml",
      YamlDoc (VDict [("logger", VDict [("redact_keys", VList [VStr "token"])])]))].

Definition secret_run : Digest.node :=
  Digest.Dir
    [("relay.json",
      Digest.File
        (JsonDoc (VDict [("persona", VStr "p"); ("role", VStr "r");
                         ("payload", VDict [("token", VStr "abc");
                                            ("note", VStr "n")])])));
     ("evaluation.json",
      Digest.File (JsonDoc (VDict [("schema_version", VStr "1.0")])))].

Lemma logger_record_is_redacted_witness :
  ∃ run' record,
    Logger.main str_of "2024-01-01T00:00:00+00:00" [] policy_files
      "/app/config/policies.yaml" "/vault/runs/run-1" secret_run false
    = Ok (run', record)
    ∧ py_get record "payload"
      = VDict [("token", VStr "***REDACTED***"); ("note", VStr "n")]
    ∧ ∃ names, exposes (str_of <$> names) (py_get record "payload") = false.
Proof.
  eexists _, _. split; [vm_compute; reflexivity|]. split; [reflexivity|].
  destruct (proj2 (logger_record_is_redacted str_of "2024-01-01T00:00:00+00:00" []
              policy_files "/app/config/policies.yaml" "/vault/runs/run-1"
              secret_run false) _ _ eq_refl)
    as (relay & config & policies & redact_keys & names & _ & _ & _ & _ & _ & H & _).
  by exists names.
Defined.

(** X24. Logging a run changes one thing in its digest record: the
    record of the run directory after logging is its record before, with
    [logger_present] true. *)
Theorem logging_sets_logger_present (py_str : value → string) (now : string)
    (environment : dict) (files : gmap string yaml_file)
    (policy_path run_dir name : string) (run run' : Digest.node)
    (record_env : bool) (log_record : dict) (before : Digest.DigestRecord) :
  Logger.main py_str now environment files policy_path run_dir run record_env
  = Ok (run', log_record) →
  Digest.collect_one (Digest.Dir [(name, run)]) [name] = Ok before →
  Digest.collect_one (Digest.Dir [(name, run')]) [name]
  = Ok {| Digest.run_dir := Digest.run_dir before;
          Digest.timestamp := Digest.timestamp before;
          Digest.persona := Digest.persona before;
          Digest.role := Digest.role before;
          Digest.pipeline := Digest.pipeline before;
          Digest.outputs := Digest.outputs before;
          Digest.evaluation_schema := Digest.evaluation_schema before;
          Digest.evaluation_criteria := Digest.evaluation_criteria before;
          Digest.logger_present := true |}.
Proof.
  intros Hmain Hbefore.
  apply main_inv in Hmain
    as (entries & relay & config & policies & redact_keys & names
        & -> & Hrelay & _ & _ & _ & _ & _ & -> & Hrecord).
  apply collect_one_inv in Hbefore
    as (relay' & evaluation & logger & count & Hr & He & Hl & Hcount & ->).
  rewrite load_json_in_run in Hr, He.
  unfold Digest.collect_one. rewrite !load_json_in_run.
  rewrite (entry_set_ne _ "logger.json" "relay.json") by done.
  rewrite (entry_set_ne _ "logger.json" "evaluation.json") by done.
  rewrite entry_set_eq, Hr, He.
  cbn [mbind result_bind py_attr_get py_attr_get_default].
  rewrite Hcount. cbn [mbind result_bind]. do 2 f_equal.
  rewrite Hrecord. by destruct record_env.
Qed.

Lemma logging_sets_logger_present_witness :
  ∃ run' log_record before,
    Logger.main str_of "2024-01-01T00:00:00+00:00" [] policy_files
      "/app/config/policies.yaml" "/vault/runs/run-1" secret_run false
    = Ok (run', log_record)
    ∧ Digest.collect_one (Digest.Dir [("run-1", secret_run)]) ["run-1"] = Ok before
    ∧ Digest.logger_present before = false
    ∧ ∃ after,
        Digest.collect_one (Digest.Dir [("run-1", run')]) ["run-1"] = Ok after
        ∧ Digest.logger_present after = true.
Proof.
  eexists _, _, _. split; [vm_compute; reflexivity|].
  split; [vm_compute; reflexivity|]. split; [reflexivity|].
  eexists. split.
  - refine (logging_sets_logger_present str_of "2024-01-01T00:00:00+00:00" []
              policy_files "/app/config/policies.yaml" "/vault/runs/run-1" "run-1"
              secret_run _ false _ _ _ _); vm_compute; reflexivity.
  - reflexivity.
Defined.

(** X25. Logging again, at the same reading of the clock, writes the
    same record over the first: the run directory and the record are those
    of the first time. *)
Theorem logging_twice (py_str : value → string) (now : string)
    (environment : dict) (files : gmap string yaml_file)
    (policy_path run_dir : string) (run run' : Digest.node)
    (record_env : bool) (log_record : dict) :
  Logger.main py_str now environment files policy_path run_dir run record_env
  = Ok (run', log_record) →
  Logger.main py_str now environment files policy_path run_dir run' record_env
  = Ok (run', log_record).
Proof.
  intros Hmain. pose proof Hmain as H.
  apply main_inv in H
    as (entries & relay & config & policies & redact_keys & names
        & -> & Hrelay & Hconfig & Hpolicies & Hkeys & Hnames & Hfree & -> & Hrecord).
  unfold Logger.main in *. simpl in *.
  rewrite (entry_set_ne _ "logger.json" "relay.json") by done.
  rewrite Hrelay in *.
  rewrite Hconfig in *. simpl in *. rewrite Hpolicies in *. simpl in *.
  rewrite Hkeys in *. simpl in *. unfold Logger.redact_with in *.
  rewrite Hnames in *. simpl in *.
  rewrite entry_set_eq, entry_set_twice.
  destruct (Digest.entry entries "logger.json") as [[c|blocked]|];
    [| by destruct (Hfree blocked) |]; by simplify_eq.
Qed.

Lemma logging_twice_witness :
  ∃ run' log_record,
    Logger.main str_of "2024-01-01T00:00:00+00:00" [] policy_files
      "/app/config/policies.yaml" "/vault/runs/run-1" secret_run false
    = Ok (run', log_record)
    ∧ Logger.main str_of "2024-01-01T00:00:00+00:00" [] policy_files
        "/app/config/policies.yaml" "/vault/runs/run-1" run' false
      = Ok (run', log_record).
Proof.
  eexists _, _. split; [vm_compute; reflexivity|].
  refine (logging_twice str_of "2024-01-01T00:00:00+00:00" [] policy_files
            "/app/config/policies.yaml" "/vault/runs/run-1" secret_run _ false _ _).
  vm_compute. reflexivity.
Defined.

(** The requests the relay endpoint takes: objects with a truthy
    [envelope] and a truthy [tool]. *)
Definition well_formed_request (body : option value) : Prop :=
  ∃ d, body = Some (VDict d)
       ∧ truthy (py_get d "envelope") = true
       ∧ truthy (py_get d "tool") = true.

(** X26. The relay endpoint returns for the well-formed requests and
    for no other: the answer then names the request's tool and the ledger
    gets one [RELAY_RECEIVED] event; every other request is answered with
    status 400 and the ledger gets one [RELAY_INVALID] event. *)
Theorem relay_accepts_iff (body : option value) :
  (well_formed_request body →
   ∃ d, body = Some (VDict d)
        ∧ RelayServer.relay body
          = ([("RELAY_RECEIVED",
               [("tool", py_get d "tool"); ("envelope", py_get d "envelope")])],
             RelayServer.Return
               [("status", VStr "received"); ("tool", py_get d "tool")]))
  ∧ (¬ well_formed_request body →
     ∃ details detail,
       RelayServer.relay body
       = ([("RELAY_INVALID", details)], RelayServer.HTTPException 400 detail)).
Proof.
  split.
  - intros (d & -> & Henvelope & Htool). exists d. split; [done|].
    unfold RelayServer.relay. by rewrite Henvelope, Htool.
  - intros Hbad. destruct body as [[| | | | | |d]|]; try by eexists _, _.
    unfold RelayServer.relay.
    destruct (truthy (py_get d "envelope")) eqn:Henvelope;
      destruct (truthy (py_get d "tool")) eqn:Htool;
      try by eexists _, _.
    destruct Hbad. by exists d.
Qed.

Lemma relay_accepts_iff_witness :
  well_formed_request
    (Some (VDict [("envelope", VDict [("id", VInt 1)]); ("tool", VStr "search")]))
  ∧ ¬ well_formed_request (Some (VDict [("envelope", VDict []); ("tool", VStr "search")]))
  ∧ (∃ d, Some (VDict [("envelope", VDict [("id", VInt 1)]); ("tool", VStr "search")])
          = Some (VDict d)
          ∧ (RelayServer.relay
               (Some (VDict [("envelope", VDict [("id", VInt 1)]);
                             ("tool", VStr "search")]))).2
            = RelayServer.Return
                [("status", VStr "received"); ("tool", py_get d "tool")])
  ∧ ∃ details detail,
      RelayServer.relay (Some (VDict [("envelope", VDict []); ("tool", VStr "search")]))
      = ([("RELAY_INVALID", details)], RelayServer.HTTPException 400 detail).
Proof.
  assert (Hgood : well_formed_request
    (Some (VDict [("envelope", VDict [("id", VInt 1)]); ("tool", VStr "search")]))).
  { eexists. split; [reflexivity|]. split; reflexivity. }
  assert (Hbad : ¬ well_formed_request
    (Some (VDict [("envelope", VDict []); ("tool", VStr "search")]))).
  { intros (d & Hd & Henvelope & _). injection Hd as <-. discriminate Henvelope. }
  split; [exact Hgood|]. split; [exact Hbad|]. split.
  - destruct (proj1 (relay_accepts_iff _) Hgood) as (d & Hd & Hrelay).
    exists d. split; [exact Hd|]. by rewrite Hrelay.
  - exact (proj2 (relay_accepts_iff _) Hbad).
Defined.

(** X27. What the ledger keeps of a rejected object is its key names,
    fifty at most, and whether it had an envelope and a tool: two rejected
    objects with the same keys, alike in having an envelope and in having
    a tool, leave the same event, whatever values they hold. *)
Theorem rejected_request_event (d d' : dict) :
  ¬ well_formed_request (Some (VDict d)) →
  keys d = keys d' →
  truthy (py_get d "envelope") = truthy (py_get d' "envelope") →
  truthy (py_get d "tool") = truthy (py_get d' "tool") →
  (RelayServer.relay (Some (VDict d))).1 = (RelayServer.relay (Some (VDict d'))).1
  ∧ ∃ names,
      (RelayServer.relay (Some (VDict d))).1
      = [("RELAY_INVALID",
          [("body_type", VStr "dict");
           ("keys", VList (VStr <$> names));
           ("has_envelope", VBool (truthy (py_get d "envelope")));
           ("has_tool", VBool (truthy (py_get d "tool")))])]
      ∧ names `prefix_of` keys d
      ∧ length names ≤ 50.
Proof.
  intros Hbad Hkeys Henvelope Htool.
  assert (Hrejected :
    negb (truthy (py_get d "envelope")) || negb (truthy (py_get d "tool")) = true).
  { destruct (truthy (py_get d "envelope")) eqn:He;
      destruct (truthy (py_get d "tool")) eqn:Ht; try done.
    destruct Hbad. by exists d. }
  unfold RelayServer.relay. rewrite <- Henvelope, <- Htool, <- Hkeys, Hrejected.
  split; [done|]. exists (take 50 (keys d)). split; [done|]. split.
  - apply prefix_take.
  - rewrite length_take. lia.
Qed.

Lemma rejected_request_event_witness :
  (RelayServer.relay
     (Some (VDict [("tool", VStr "search"); ("password", VStr "hunter2")]))).1
  = (RelayServer.relay
       (Some (VDict [("tool", VStr "index"); ("password", VStr "other")]))).1.
Proof.
  refine (proj1 (rejected_request_event
                   [("tool", VStr "search"); ("password", VStr "hunter2")]
                   [("tool", VStr "index"); ("password", VStr "other")] _ _ _ _));
    try reflexivity.
  intros (d & Hd & Henvelope & _). injection Hd as <-. discriminate Henvelope.
Defined.
